(** * GPT event decoder ([compute-images/scripts/parse_gpt.py])

    A shallow embedding of [read_header], [read_partitions] and [main]
    together with the fragments of the Python standard library they call
    ([struct.unpack], [uuid.UUID], the [utf-16] codec, [bytes.__repr__],
    [bytes.fromhex]), followed by the properties the decoder's
    specification states and by further properties of the three functions.

    Conventions:
    - [bytes] is [list byte]; a Python [str] is the list of its code points;
    - a Python [int] is a [Z];
    - a raised exception is the [Raise] constructor of [result]; a generator
      is the list of the values it yields together with the way it ended. *)

From Stdlib Require Import Bool Ascii String List ZArith NArith Lia.
From Stdlib.Strings Require Import Byte.
From Stdlib Require Import DecimalString.
From Stdlib Require DecimalPos DecimalZ.
Import ListNotations.

Local Open Scope Z_scope.

(** ** Python values, exceptions and results *)

Definition bytes := list byte.
Definition str := list N.

(** The dynamically typed values that occupy a named-tuple field which
    [_replace] later overwrites with a value of another type. *)
Inductive value :=
| VBytes (b : bytes)
| VInt (z : Z)
| VStr (s : str).

(** The exceptions, each constructor naming the class of the object
    raised.  The classes are kept apart: Python's subclass relation is not
    part of the model ([UnicodeDecodeError] is a subclass of [ValueError]
    there; [ValueError] here is an object of that very class). *)
Inductive exn :=
| struct_error                 (* struct.error *)
| GPTError (msg : string)      (* class GPTError(Exception) *)
| ValueError
| TypeError
| UnicodeDecodeError.

Inductive result (A : Type) :=
| Ok (a : A)
| Raise (e : exn).
Arguments Ok {A} a.
Arguments Raise {A} e.

Definition bind {A B} (r : result A) (k : A -> result B) : result B :=
  match r with
  | Ok a => k a
  | Raise e => Raise e
  end.

Notation "x <- r ;; k" := (bind r (fun x => k))
  (at level 61, r at next level, right associativity).

(** How a generator ended: it returned, or an exception escaped. *)
Inductive outcome :=
| Done
| Raised (e : exn).

(** ** Sequences: slicing, comparison, literals *)

Definition len {A} (l : list A) : Z := Z.of_nat (length l).

(** [l[:n]] and [l[n:]] for an arbitrary Python integer [n]: a negative
    bound counts from the end and is clipped at the start. *)
Definition py_bound {A} (n : Z) (l : list A) : nat :=
  if n <? 0 then Z.to_nat (Z.max 0 (len l + n)) else Z.to_nat n.

Definition py_take {A} (n : Z) (l : list A) : list A := firstn (py_bound n l) l.
Definition py_drop {A} (n : Z) (l : list A) : list A := skipn (py_bound n l) l.

(** [l[a:b]] for constant non-negative bounds. *)
Definition slice {A} (a b : nat) (l : list A) : list A :=
  firstn (b - a) (skipn a l).

(** [range(a, b)] *)
Definition py_range (a b : Z) : list Z :=
  map (fun k => a + Z.of_nat k) (seq 0 (Z.to_nat (b - a))).

Definition is_empty {A} (l : list A) : bool :=
  match l with [] => true | _ :: _ => false end.

Fixpoint list_eqb {A} (eqb : A -> A -> bool) (l1 l2 : list A) : bool :=
  match l1, l2 with
  | [], [] => true
  | a :: l1', b :: l2' => eqb a b && list_eqb eqb l1' l2'
  | _, _ => false
  end.

Definition bytes_eqb : bytes -> bytes -> bool := list_eqb Byte.eqb.
Definition str_eqb : str -> str -> bool := list_eqb N.eqb.

(** [==] on values: values of different types are never equal; in
    particular a [bytes] object never equals a [str]. *)
Definition py_eq (a b : value) : bool :=
  match a, b with
  | VBytes x, VBytes y => bytes_eqb x y
  | VInt x, VInt y => x =? y
  | VStr x, VStr y => str_eqb x y
  | _, _ => false
  end.

Definition byte_of_ascii (c : ascii) : byte := Ascii.byte_of_ascii c.

(** A bytes literal [b"..."] and a text literal ["..."] with ASCII content. *)
Definition b_lit (s : string) : bytes := map byte_of_ascii (list_ascii_of_string s).
Definition s_lit (s : string) : str := map N_of_ascii (list_ascii_of_string s).

(** ** [struct]: little-endian unpacking without alignment ([<]) *)

Inductive fmt_code :=
| Fs (n : nat)      (* "ns": n raw bytes *)
| Fx (n : nat)      (* "nx": n pad bytes, no value *)
| FL                (* "L": unsigned 32-bit *)
| FQ.               (* "Q": unsigned 64-bit *)

Definition code_size (c : fmt_code) : nat :=
  match c with
  | Fs n => n
  | Fx n => n
  | FL => 4
  | FQ => 8
  end.

Fixpoint calcsize (fmt : list fmt_code) : nat :=
  match fmt with
  | [] => 0
  | c :: fmt' => code_size c + calcsize fmt'
  end.

(** Little-endian unsigned integer held in a byte string. *)
Fixpoint uint_le (b : bytes) : Z :=
  match b with
  | [] => 0
  | x :: b' => Z.of_N (Byte.to_N x) + 256 * uint_le b'
  end.

Fixpoint unpack_from (fmt : list fmt_code) (data : bytes) : list value :=
  match fmt with
  | [] => []
  | c :: fmt' =>
      let field := firstn (code_size c) data in
      let rest := skipn (code_size c) data in
      match c with
      | Fs _ => VBytes field :: unpack_from fmt' rest
      | Fx _ => unpack_from fmt' rest
      | FL | FQ => VInt (uint_le field) :: unpack_from fmt' rest
      end
  end.

(** [struct.unpack(fmt, data)]: the buffer must have exactly the size the
    format describes. *)
Definition unpack (fmt : list fmt_code) (data : bytes) : result (list value) :=
  if Nat.eqb (length data) (calcsize fmt)
  then Ok (unpack_from fmt data)
  else Raise struct_error.

(** ** The layout tables *)

(** [_make_fmt]: the table lists a format code and a field name per line;
    the format is the codes in order, the tuple's fields are the names
    other than ["_"], then the extras. *)
Definition _make_fmt (format : list (fmt_code * string)) (extras : list string)
  : list fmt_code * list string :=
  (map fst format,
   filter (fun n => negb (String.eqb n "_")) (map snd format) ++ extras).

Definition GPT_HEADER_FORMAT : list (fmt_code * string) :=
  [ (Fs 8, "signature");
    (Fs 4, "revision");
    (FL, "header_size");
    (FL, "crc32");
    (Fx 4, "_");
    (FQ, "current_lba");
    (FQ, "backup_lba");
    (FQ, "first_usable_lba");
    (FQ, "last_usable_lba");
    (Fs 16, "disk_guid");
    (FQ, "part_entry_start_lba");
    (FL, "num_part_entries");
    (FL, "part_entry_size");
    (FL, "crc32_part_array") ]%string.

Definition GPT_HDR_FMT : list fmt_code := fst (_make_fmt GPT_HEADER_FORMAT []).

Definition GPT_PARTITION_FORMAT : list (fmt_code * string) :=
  [ (Fs 16, "type");
    (Fs 16, "unique");
    (FQ, "first_lba");
    (FQ, "last_lba");
    (FQ, "flags");
    (Fs 72, "name") ]%string.

Definition GPT_PART_FMT : list fmt_code :=
  fst (_make_fmt GPT_PARTITION_FORMAT ["index"%string]).

(** The named tuples.  [disk_guid], [type], [unique] and [name] are
    unpacked as [bytes] and replaced by text, so they hold a [value]. *)
Record GPTHeader := mkGPTHeader {
  signature : bytes;
  revision : bytes;
  header_size : Z;
  crc32 : Z;
  current_lba : Z;
  backup_lba : Z;
  first_usable_lba : Z;
  last_usable_lba : Z;
  disk_guid : value;
  part_entry_start_lba : Z;
  num_part_entries : Z;
  part_entry_size : Z;
  crc32_part_array : Z
}.

Record GPTPartition := mkGPTPartition {
  type : value;
  unique : value;
  first_lba : Z;
  last_lba : Z;
  flags : Z;
  name : value;
  index : Z
}.

(** [GPTHeader._make]: one value per field, in the order of the table. *)
Definition GPTHeader_make (vs : list value) : result GPTHeader :=
  match vs with
  | [VBytes sg; VBytes rv; VInt hs; VInt crc; VInt cur; VInt bak; VInt fu;
     VInt lu; dg; VInt st; VInt n; VInt sz; VInt crcp] =>
      Ok (mkGPTHeader sg rv hs crc cur bak fu lu dg st n sz crcp)
  | _ => Raise TypeError
  end.

(** [GPTPartition._make] *)
Definition GPTPartition_make (vs : list value) : result GPTPartition :=
  match vs with
  | [ty; un; VInt fl; VInt ll; VInt fg; nm; VInt i] =>
      Ok (mkGPTPartition ty un fl ll fg nm i)
  | _ => Raise TypeError
  end.

(** ** [uuid.UUID(bytes_le=...)] and [str(uuid)] *)

(** [int.from_bytes(b, "big")] *)
Definition int_from_bytes (b : bytes) : N :=
  fold_left (fun acc x => (acc * 256 + Byte.to_N x)%N) b 0%N.

(** The constructor swaps the first three fields into big-endian order
    and keeps the integer. *)
Definition UUID_bytes_le (bytes_le : bytes) : result N :=
  if Nat.eqb (length bytes_le) 16
  then Ok (int_from_bytes (rev (slice 0 4 bytes_le) ++ rev (slice 4 6 bytes_le)
                           ++ rev (slice 6 8 bytes_le) ++ skipn 8 bytes_le))
  else Raise ValueError.

Definition hex_digit (d : N) : ascii :=
  match d with
  | 0 => "0" | 1 => "1" | 2 => "2" | 3 => "3" | 4 => "4" | 5 => "5"
  | 6 => "6" | 7 => "7" | 8 => "8" | 9 => "9" | 10 => "a" | 11 => "b"
  | 12 => "c" | 13 => "d" | 14 => "e" | _ => "f"
  end%N%char.

(** The [w] low hexadecimal digits of [v], most significant first, in
    front of [acc]. *)
Fixpoint hex_width (w : nat) (v : N) (acc : string) : string :=
  match w with
  | O => acc
  | S w' => hex_width w' (v / 16)%N (String (hex_digit (v mod 16)%N) acc)
  end.

(** ['%032x' % v] for [v < 2^128], which a UUID's integer always is. *)
Definition format_032x (v : N) : string := hex_width 32 v "".

(** [s[a:]] on text *)
Definition string_from (a : nat) (s : string) : string :=
  substring a (String.length s - a) s.

(** [str(uuid)]: the five hyphen-separated groups of [self.hex]. *)
Definition UUID_str (int : N) : string :=
  let x := format_032x int in
  (substring 0 8 x ++ "-" ++ substring 8 4 x ++ "-" ++ substring 12 4 x
   ++ "-" ++ substring 16 4 x ++ "-" ++ string_from 20 x)%string.

(** [str(uuid.UUID(bytes_le=v))] for the value held by a field. *)
Definition uuid_text (v : value) : result value :=
  match v with
  | VBytes b => i <- UUID_bytes_le b ;; Ok (VStr (s_lit (UUID_str i)))
  | _ => Raise TypeError
  end.

(** ** [repr] of [bytes] and [str] of [int], as f-strings format them *)

Definition squote : byte := x27.
Definition dquote : byte := x22.
Definition backslash : byte := x5c.

Definition repr_byte (quote c : byte) : string :=
  let n := Byte.to_N c in
  if Byte.eqb c quote || Byte.eqb c backslash
  then String (ascii_of_byte backslash) (String (ascii_of_byte c) "")
  else if Byte.eqb c x09 then String (ascii_of_byte backslash) "t"
  else if Byte.eqb c x0a then String (ascii_of_byte backslash) "n"
  else if Byte.eqb c x0d then String (ascii_of_byte backslash) "r"
  else if (n <? 32)%N || (127 <=? n)%N
  then String (ascii_of_byte backslash)
         (String "x" (String (hex_digit (n / 16)%N)
                        (String (hex_digit (n mod 16)%N) "")))
  else String (ascii_of_byte c) "".

(** Double quotes are used when the value holds a single quote and no
    double quote. *)
Definition repr_quote (b : bytes) : byte :=
  let has c := existsb (Byte.eqb c) b in
  if has squote && negb (has dquote) then dquote else squote.

Definition bytes_repr (b : bytes) : string :=
  let quote := repr_quote b in
  String "b" (String (ascii_of_byte quote)
    (String.concat "" (map (repr_byte quote) b)
     ++ String (ascii_of_byte quote) ""))%string.

Definition int_str (z : Z) : string := NilZero.string_of_int (Z.to_int z).

(** ** The [utf-16] codec and [str.split] *)

Inductive byteorder := little | big.

Definition code_unit (bo : byteorder) (a b : byte) : N :=
  match bo with
  | little => Byte.to_N a + 256 * Byte.to_N b
  | big => 256 * Byte.to_N a + Byte.to_N b
  end%N.

(** Pairs of bytes as 16-bit code units; a trailing odd byte is an error. *)
Fixpoint code_units (bo : byteorder) (b : bytes) : result (list N) :=
  match b with
  | [] => Ok []
  | [_] => Raise UnicodeDecodeError
  | x :: y :: b' => us <- code_units bo b' ;; Ok (code_unit bo x y :: us)
  end.

(** Code units to code points: a high surrogate must be followed by a low
    one, a low surrogate alone is an error. *)
Fixpoint code_points (us : list N) : result str :=
  match us with
  | [] => Ok []
  | u :: rest =>
      if (u <? 55296)%N || (57343 <? u)%N
      then cs <- code_points rest ;; Ok (u :: cs)
      else if (u <? 56320)%N
      then match rest with
           | lo :: rest' =>
               if (56320 <=? lo)%N && (lo <=? 57343)%N
               then cs <- code_points rest' ;;
                    Ok ((65536 + (u - 55296) * 1024 + (lo - 56320))%N :: cs)
               else Raise UnicodeDecodeError
           | [] => Raise UnicodeDecodeError
           end
      else Raise UnicodeDecodeError
  end.

(** [b.decode("utf-16")]: a leading byte-order mark selects the byte order
    and is dropped; without one the host's byte order is used. *)
Definition decode_utf_16 (sys_byteorder : byteorder) (b : bytes) : result str :=
  match b with
  | xff :: xfe :: b' => us <- code_units little b' ;; code_points us
  | xfe :: xff :: b' => us <- code_units big b' ;; code_points us
  | _ => us <- code_units sys_byteorder b ;; code_points us
  end.

(** [s.split("\0", 1)[0]]: the text before the first NUL. *)
Fixpoint before_nul (s : str) : str :=
  match s with
  | [] => []
  | c :: s' => if (c =? 0)%N then [] else c :: before_nul s'
  end.

Definition decode_name (sys_byteorder : byteorder) (v : value) : result value :=
  match v with
  | VBytes b => s <- decode_utf_16 sys_byteorder b ;; Ok (VStr (before_nul s))
  | _ => Raise TypeError
  end.

(** ** [read_header] *)

Definition replace_disk_guid (h : GPTHeader) (v : value) : GPTHeader :=
  mkGPTHeader (signature h) (revision h) (header_size h) (crc32 h)
    (current_lba h) (backup_lba h) (first_usable_lba h) (last_usable_lba h)
    v (part_entry_start_lba h) (num_part_entries h) (part_entry_size h)
    (crc32_part_array h).

Definition read_header (event : bytes) : result GPTHeader :=
  let data := py_take (Z.of_nat (calcsize GPT_HDR_FMT)) event in
  vs <- unpack GPT_HDR_FMT data ;;
  header <- GPTHeader_make vs ;;
  if negb (bytes_eqb (signature header) (b_lit "EFI PART"))
  then Raise (GPTError ("Bad signature: " ++ bytes_repr (signature header)))
  else if negb (bytes_eqb (revision header) [x00; x00; x01; x00])
  then Raise (GPTError ("Bad revision: " ++ bytes_repr (revision header)))
  else if header_size header <? 92
  then Raise (GPTError ("Bad header size: " ++ int_str (header_size header)))
  else
    g <- uuid_text (disk_guid header) ;;
    Ok (replace_disk_guid header g).

(** ** [read_partitions] *)

Definition replace_type_unique_name (p : GPTPartition) (ty un nm : value)
  : GPTPartition :=
  mkGPTPartition ty un (first_lba p) (last_lba p) (flags p) nm (index p).

(** A generator step that yields [p] and goes on as [k]. *)
Definition yield {A} (p : A) (k : list A * outcome) : list A * outcome :=
  (p :: fst k, snd k).

Section ReadPartitions.

(** [sys.byteorder], which the [utf-16] codec falls back on. *)
Variable sys_byteorder : byteorder.

(** The body of the [for] loop, over the indices still to visit. *)
Fixpoint read_partitions_loop (header : GPTHeader) (event : bytes)
    (idxs : list Z) : list GPTPartition * outcome :=
  match idxs with
  | [] => ([], Done)
  | i :: idxs' =>
      let data := py_take (part_entry_size header) event in
      let event := py_drop (part_entry_size header) event in
      if is_empty data then ([], Done)
      else if len data <? Z.of_nat (calcsize GPT_PART_FMT)
      then ([], Raised (GPTError "Short partition entry"))
      else
        match (vs <- unpack GPT_PART_FMT data ;;
               GPTPartition_make (vs ++ [VInt i])) with
        | Raise e => ([], Raised e)
        | Ok part =>
            if py_eq (type part) (VStr (repeat 0%N 16))
            then read_partitions_loop header event idxs'
            else
              match (ty <- uuid_text (type part) ;;
                     un <- uuid_text (unique part) ;;
                     nm <- decode_name sys_byteorder (name part) ;;
                     Ok (replace_type_unique_name part ty un nm)) with
              | Raise e => ([], Raised e)
              | Ok part =>
                  yield part (read_partitions_loop header event idxs')
              end
        end
  end.

(** [lba_size] is a keyword parameter with the default value 50; [None]
    is a call that leaves it out. *)
Definition read_partitions (event : bytes) (header : GPTHeader)
    (lba_size : option Z) : list GPTPartition * outcome :=
  let lba_size := match lba_size with Some n => n | None => 50 end in
  let event := py_drop (part_entry_start_lba header * lba_size) event in
  read_partitions_loop header event
    (py_range 1 (1 + num_part_entries header)).

End ReadPartitions.

(** ** Building byte strings *)

Definition byte_of_N (n : N) : byte :=
  match Byte.of_N (n mod 256) with
  | Some b => b
  | None => x00
  end.

(** [v.to_bytes(w, "little")] *)
Fixpoint to_bytes_le (w : nat) (v : N) : bytes :=
  match w with
  | O => []
  | S w' => byte_of_N (v mod 256) :: to_bytes_le w' (v / 256)
  end.

(** [v.to_bytes(w, "big")] *)
Definition to_bytes_big (w : nat) (v : N) : bytes := rev (to_bytes_le w v).

(** [s.encode("utf-16-le")] for text in the Basic Multilingual Plane. *)
Definition encode_utf_16_le (s : str) : bytes :=
  flat_map (to_bytes_le 2) s.

(** ** The text-to-bytes direction of the GUID codec *)

Definition hyphen : N := 45%N.

Definition hex_value (c : N) : option N :=
  if (48 <=? c)%N && (c <=? 57)%N then Some (c - 48)%N
  else if (97 <=? c)%N && (c <=? 102)%N then Some (c - 87)%N
  else if (65 <=? c)%N && (c <=? 70)%N then Some (c - 55)%N
  else None.

(** [int(s, 16)] on a string of hexadecimal digits *)
Fixpoint parse_hex (acc : N) (s : str) : option N :=
  match s with
  | [] => Some acc
  | c :: s' =>
      match hex_value c with
      | Some d => parse_hex (acc * 16 + d)%N s'
      | None => None
      end
  end.

(** Modelled from the spec: the decoder's source has no function that
    turns a GUID string back into bytes; section 2 of the specification
    describes GuidCodec as converting the 16-byte little-endian field
    "into its canonical text form and back", and section 8 re-encodes the
    canonical string to the wire form.  The hyphens are dropped, the 32
    hexadecimal digits are read as one integer, the integer is laid out
    in 16 big-endian bytes and the first three fields are swapped back
    to little-endian order. *)
Definition guid_encode (text : str) : option bytes :=
  let digits := filter (fun c => negb (c =? hyphen)%N) text in
  if Nat.eqb (length digits) 32
  then match parse_hex 0%N digits with
       | Some i =>
           let b := to_bytes_big 16 i in
           Some (rev (slice 0 4 b) ++ rev (slice 4 6 b) ++ rev (slice 6 8 b)
                 ++ skipn 8 b)
       | None => None
       end
  else None.

Definition is_lower_hex (c : N) : bool :=
  ((48 <=? c) && (c <=? 57) || (97 <=? c) && (c <=? 102))%N.

(** The shape [xxxxxxxx-xxxx-xxxx-xxxx-xxxxxxxxxxxx] with lower-case
    hexadecimal digits. *)
Definition is_canonical_guid (text : str) : bool :=
  Nat.eqb (length text) 36
  && forallb (fun k => (nth k text 0 =? hyphen)%N) [8; 13; 18; 23]%nat
  && forallb is_lower_hex
       (slice 0 8 text ++ slice 9 13 text ++ slice 14 18 text
        ++ slice 19 23 text ++ slice 24 36 text).

(** ** Vocabulary for the statements *)

(** Reads the first byte of a [repr] body back, for either quote. *)
Definition unrepr_byte (s : string) : option (byte * string) :=
  match s with
  | String c s' =>
      if Ascii.eqb c (ascii_of_byte backslash)
      then match s' with
           | String "t" r => Some (x09, r)
           | String "n" r => Some (x0a, r)
           | String "r" r => Some (x0d, r)
           | String "x" (String h (String l r)) =>
               match hex_value (N_of_ascii h), hex_value (N_of_ascii l) with
               | Some a, Some b => Some (byte_of_N (a * 16 + b), r)
               | _, _ => None
               end
           | String d r => Some (byte_of_ascii d, r)
           | EmptyString => None
           end
      else Some (byte_of_ascii c, s')
  | EmptyString => None
  end.

(** The header fields as the fixed layout places them in the buffer,
    before validation and with the GUID still raw. *)
Definition header_at (event : bytes) : GPTHeader :=
  mkGPTHeader
    (slice 0 8 event) (slice 8 12 event)
    (uint_le (slice 12 16 event)) (uint_le (slice 16 20 event))
    (uint_le (slice 24 32 event)) (uint_le (slice 32 40 event))
    (uint_le (slice 40 48 event)) (uint_le (slice 48 56 event))
    (VBytes (slice 56 72 event))
    (uint_le (slice 72 80 event)) (uint_le (slice 80 84 event))
    (uint_le (slice 84 88 event)) (uint_le (slice 88 92 event)).

(** Two hexadecimal digits per byte, and the five groups of a GUID's
    text with a hyphen between them. *)
Definition hex_chars (b : bytes) : list ascii :=
  flat_map (fun x => [hex_digit (Byte.to_N x / 16)%N;
                      hex_digit (Byte.to_N x mod 16)%N]) b.

Definition guid_layout (digits : str) : str :=
  firstn 8 digits ++ hyphen :: slice 8 12 digits ++ hyphen
  :: slice 12 16 digits ++ hyphen :: slice 16 20 digits ++ hyphen
  :: skipn 20 digits.

(** The byte order of the wire form: the first three fields reversed. *)
Definition swap_fields (b : bytes) : bytes :=
  rev (slice 0 4 b) ++ rev (slice 4 6 b) ++ rev (slice 6 8 b) ++ skipn 8 b.

(** The fields of the entry in a 128-byte slice, still raw, with the
    index the loop attaches. *)
Definition partition_at (data : bytes) (i : Z) : GPTPartition :=
  mkGPTPartition
    (VBytes (slice 0 16 data)) (VBytes (slice 16 32 data))
    (uint_le (slice 32 40 data)) (uint_le (slice 40 48 data))
    (uint_le (slice 48 56 data))
    (VBytes (slice 56 128 data)) i.

(** [header._replace(num_part_entries=n)] and
    [header._replace(part_entry_start_lba=n)] *)
Definition with_num_part_entries (h : GPTHeader) (n : Z) : GPTHeader :=
  mkGPTHeader (signature h) (revision h) (header_size h) (crc32 h)
    (current_lba h) (backup_lba h) (first_usable_lba h) (last_usable_lba h)
    (disk_guid h) (part_entry_start_lba h) n (part_entry_size h)
    (crc32_part_array h).

Definition with_part_entry_start_lba (h : GPTHeader) (n : Z) : GPTHeader :=
  mkGPTHeader (signature h) (revision h) (header_size h) (crc32 h)
    (current_lba h) (backup_lba h) (first_usable_lba h) (last_usable_lba h)
    (disk_guid h) n (num_part_entries h) (part_entry_size h)
    (crc32_part_array h).

Definition lba_size_or_default (lba_size : option Z) : Z :=
  match lba_size with Some n => n | None => 50 end.

(** The partition array: the buffer from the computed offset on. *)
Definition partition_array (event : bytes) (header : GPTHeader)
    (lba_size : option Z) : bytes :=
  py_drop (part_entry_start_lba header * lba_size_or_default lba_size) event.

(** What is left of the array after [k] iterations have cut their slice
    off, and the slice the iteration with index [j] looks at. *)
Fixpoint rest_after (header : GPTHeader) (k : nat) (arr : bytes) : bytes :=
  match k with
  | O => arr
  | S k' => rest_after header k' (py_drop (part_entry_size header) arr)
  end.

Definition entry_slice (header : GPTHeader) (arr : bytes) (j : Z) : bytes :=
  py_take (part_entry_size header) (rest_after header (Z.to_nat (j - 1)) arr).

Definition short_partition_entry : exn := GPTError "Short partition entry".

(** What one pass through the loop body does with the slice it cut off:
    [return], [raise], [continue], or [yield]. *)
Inductive entry_result :=
| EntryEnd
| EntryError (e : exn)
| EntrySkipped
| EntryYield (p : GPTPartition).

Definition read_entry (sys_byteorder : byteorder) (i : Z) (data : bytes)
  : entry_result :=
  if is_empty data then EntryEnd
  else if len data <? Z.of_nat (calcsize GPT_PART_FMT)
  then EntryError short_partition_entry
  else
    match (vs <- unpack GPT_PART_FMT data ;;
           GPTPartition_make (vs ++ [VInt i])) with
    | Raise e => EntryError e
    | Ok part =>
        if py_eq (type part) (VStr (repeat 0%N 16)) then EntrySkipped
        else
          match (ty <- uuid_text (type part) ;;
                 un <- uuid_text (unique part) ;;
                 nm <- decode_name sys_byteorder (name part) ;;
                 Ok (replace_type_unique_name part ty un nm)) with
          | Raise e => EntryError e
          | Ok part => EntryYield part
          end
    end.

(** ** Sample events *)

Definition sample_guid : bytes :=
  map byte_of_N [1; 2; 3; 4; 5; 6; 7; 8; 9; 10; 11; 12; 13; 14; 15; 16]%N.

(** A 92-byte header: signature, revision 1.0, [header_size = 92], the
    partition array at LBA [start], [n] entries of [esz] bytes. *)
Definition sample_header_bytes (start n esz : N) : bytes :=
  b_lit "EFI PART" ++ [x00; x00; x01; x00]
  ++ to_bytes_le 4 92 ++ to_bytes_le 4 0 ++ to_bytes_le 4 0
  ++ to_bytes_le 8 1 ++ to_bytes_le 8 2 ++ to_bytes_le 8 34 ++ to_bytes_le 8 100
  ++ sample_guid
  ++ to_bytes_le 8 start ++ to_bytes_le 4 n ++ to_bytes_le 4 esz
  ++ to_bytes_le 4 0.

(** A 128-byte entry with the given type GUID and name. *)
Definition sample_entry (ty : bytes) (nm : string) : bytes :=
  ty ++ sample_guid ++ to_bytes_le 8 34 ++ to_bytes_le 8 99 ++ to_bytes_le 8 0
  ++ firstn 72 (encode_utf_16_le (s_lit nm) ++ repeat x00 72).

Definition unused_entry : bytes := repeat x00 128.

Definition esp_type : bytes :=
  map byte_of_N [40; 115; 42; 193; 31; 248; 210; 17; 186; 75; 0; 160; 201; 62;
                 201; 59]%N.

(** The worked example of the specification: two entries of 128 bytes,
    the first unused, the second named "EFI System"; the array starts
    right after the header (LBA 1 with 92-byte sectors). *)
Definition example_event : bytes :=
  sample_header_bytes 1 2 128 ++ unused_entry
  ++ sample_entry esp_type "EFI System".

(** [num_part_entries = 3], one populated entry followed by two unused. *)
Definition sparse_event : bytes :=
  sample_header_bytes 1 3 128 ++ sample_entry esp_type "root"
  ++ unused_entry ++ unused_entry.

(** [num_part_entries = 3], but the buffer ends after the first entry. *)
Definition exhausted_event : bytes :=
  sample_header_bytes 1 3 128 ++ sample_entry esp_type "root".

(** The layout of a TPM event: the header, an 8-byte entry count, then
    the entries at byte 100, which is LBA 2 for the default [lba_size]. *)
Definition tpm_event : bytes :=
  sample_header_bytes 2 1 128 ++ to_bytes_le 8 1
  ++ sample_entry esp_type "EFI System".





Definition header_of (event : bytes) : GPTHeader :=
  match read_header event with
  | Ok h => h
  | Raise _ => header_at event
  end.


(** ** [main] *)

(** [Py_ISSPACE]: the ASCII whitespace that [bytes.fromhex] skips. *)
Definition is_space (c : N) : bool :=
  ((c =? 32) || (9 <=? c) && (c <=? 13))%N.

(** [bytes.fromhex(s)]: two hexadecimal digits per byte, in either case;
    whitespace is skipped in front of a byte, not between its two digits;
    anything else, or a digit left alone at the end, is a [ValueError]. *)
Fixpoint bytes_fromhex (s : str) : result bytes :=
  match s with
  | [] => Ok []
  | c :: s' =>
      if is_space c then bytes_fromhex s'
      else
        match hex_value c, s' with
        | Some top, d :: s'' =>
            match hex_value d with
            | Some bot =>
                b <- bytes_fromhex s'' ;; Ok (byte_of_N (top * 16 + bot) :: b)
            | None => Raise ValueError
            end
        | _, _ => Raise ValueError
        end
  end.

(** What the script writes: a line on [sys.stderr], and the values it
    hands to [devtools.debug], in the order of the calls. *)
Inductive output :=
| print_stderr (line : string)
| debug_header (header : GPTHeader)
| debug_part (part : GPTPartition).

Definition EX_OK : Z := 0.
Definition EX_USAGE : Z := 64.

(** [main(av)]: what was written when it returned or raised, and the
    status it returned or the exception that escaped.  The generator is
    consumed by the [for] loop, so every record it yields has been
    written when an exception leaves it. *)
Definition main (sys_byteorder : byteorder) (av : list str)
  : list output * result Z :=
  if negb (len av =? 2)
  then ([print_stderr "Usage: parse_gpt GPT_EVENT"], Ok EX_USAGE)
  else
    match bytes_fromhex (nth 1 av []) with
    | Raise e => ([], Raise e)
    | Ok event =>
        match read_header event with
        | Raise e => ([], Raise e)
        | Ok header =>
            let parts := read_partitions sys_byteorder event header None in
            (debug_header header :: map debug_part (fst parts),
             match snd parts with
             | Done => Ok EX_OK
             | Raised e => Raise e
             end)
        end
    end.

(** ** More vocabulary *)

(** The text of a GUID held in 16 bytes of the wire form: the digits of
    the bytes with the first three fields reversed, in five groups. *)
Definition guid_text (b : bytes) : str :=
  guid_layout (map N_of_ascii (hex_chars (swap_fields b))).

Definition nil_guid : str := s_lit "00000000-0000-0000-0000-000000000000".

(** The text of the name field of an entry, empty when it does not
    decode. *)
Definition entry_name (sys_byteorder : byteorder) (data : bytes) : str :=
  match decode_utf_16 sys_byteorder (slice 56 128 data) with
  | Ok s => before_nul s
  | Raise _ => []
  end.

(** The record of a complete entry whose name decodes. *)
Definition entry_record (sys_byteorder : byteorder) (data : bytes) (i : Z)
  : GPTPartition :=
  mkGPTPartition
    (VStr (guid_text (slice 0 16 data))) (VStr (guid_text (slice 16 32 data)))
    (uint_le (slice 32 40 data)) (uint_le (slice 40 48 data))
    (uint_le (slice 48 56 data))
    (VStr (entry_name sys_byteorder data)) i.

Definition name_decodes (sys_byteorder : byteorder) (data : bytes) : bool :=
  match decode_utf_16 sys_byteorder (slice 56 128 data) with
  | Ok _ => true
  | Raise _ => false
  end.

(** The records of consecutive complete entries, numbered from [i]. *)
Fixpoint entry_records (sys_byteorder : byteorder) (i : Z)
    (entries : list bytes) : list GPTPartition :=
  match entries with
  | [] => []
  | e :: entries' =>
      entry_record sys_byteorder e i
      :: entry_records sys_byteorder (i + 1) entries'
  end.

Definition is_surrogate (c : N) : bool := ((55296 <=? c) && (c <=? 57343))%N.
Definition is_low_surrogate (c : N) : bool :=
  ((56320 <=? c) && (c <=? 57343))%N.

(** The two code units that read as a byte-order mark at the start. *)
Definition is_bom (c : N) : bool := ((c =? 65279) || (c =? 65534))%N.

(** A character the [utf-16-le] encoding writes as one code unit. *)
Definition is_bmp_char (c : N) : bool :=
  (c <? 65536)%N && negb (is_surrogate c).

Definition starts_with_bom (s : str) : bool :=
  match s with
  | c :: _ => is_bom c
  | [] => false
  end.

(** Upper-case hexadecimal digits, and a dump of a byte string: two
    digits per byte, [sep] in front and after every byte. *)
Definition hex_digit_upper (d : N) : ascii :=
  match d with
  | 10 => "A" | 11 => "B" | 12 => "C" | 13 => "D" | 14 => "E" | 15 => "F"
  | _ => hex_digit d
  end%N%char.

Definition hex_dump (upper : bool) (sep : str) (b : bytes) : str :=
  sep ++ flat_map (fun x =>
                     let digit := if upper then hex_digit_upper else hex_digit in
                     N_of_ascii (digit (Byte.to_N x / 16)%N)
                     :: N_of_ascii (digit (Byte.to_N x mod 16)%N) :: sep) b.

Definition is_hex_digit (c : N) : bool :=
  match hex_value c with Some _ => true | None => false end.

Definition is_prefix {A} (l1 l2 : list A) : Prop := exists l, l2 = l1 ++ l.

(** The unsigned range of a [w]-byte integer field. *)
Definition in_uint (w : nat) (z : Z) : Prop := 0 <= z < 256 ^ Z.of_nat w.

(** A code unit with its two bytes exchanged. *)
Definition swap_bytes (c : N) : N := (256 * (c mod 256) + c / 256)%N.

(** A complete entry in front of the rest of an array, shown with entries
    of 256 bytes declared; and a header alone. *)
Definition wide_entry_event : bytes :=
  sample_header_bytes 1 1 256 ++ sample_entry esp_type "root"
  ++ repeat x00 128.

Definition header_only_event : bytes := sample_header_bytes 2 1 128.

(** An entry whose name is "A", a NUL, and then a low surrogate on its
    own, ahead of the padding; and an event that holds it. *)
Definition stray_surrogate_name : str := [65; 0; 56320]%N ++ repeat 0%N 33.

Definition stray_surrogate_entry : bytes :=
  esp_type ++ sample_guid ++ to_bytes_le 8 34 ++ to_bytes_le 8 99
  ++ to_bytes_le 8 0 ++ encode_utf_16_le stray_surrogate_name.

Definition stray_surrogate_event : bytes :=
  sample_header_bytes 1 1 128 ++ stray_surrogate_entry.
(** ** Proof tactics *)

(** Brings nested [firstn]/[skipn] to the form [firstn n (skipn k l)]. *)
Ltac norm_slices :=
  repeat rewrite skipn_skipn;
  repeat rewrite skipn_firstn_comm;
  repeat rewrite firstn_firstn;
  cbn [Nat.add Nat.sub Nat.min].

(** * Properties *)

(** ** Slices *)

Lemma py_take_nonneg {A} (n : Z) (l : list A) :
  0 <= n -> py_take n l = firstn (Z.to_nat n) l.
Proof.
  intros Hn. unfold py_take, py_bound.
  destruct (Z.ltb_spec n 0) as [Hlt | _]; [lia | reflexivity].
Qed.

Lemma py_drop_nonneg {A} (n : Z) (l : list A) :
  0 <= n -> py_drop n l = skipn (Z.to_nat n) l.
Proof.
  intros Hn. unfold py_drop, py_bound.
  destruct (Z.ltb_spec n 0) as [Hlt | _]; [lia | reflexivity].
Qed.

Lemma firstn_nil_inv {A} (k : nat) (l : list A) :
  firstn k l = [] -> k = O \/ l = [].
Proof. destruct k, l; simpl; auto; discriminate. Qed.

(** An empty slice leaves the buffer as it is. *)
Lemma py_take_nil_drop {A} (n : Z) (l : list A) :
  py_take n l = [] -> py_drop n l = l.
Proof.
  unfold py_take, py_drop. intros H.
  destruct (firstn_nil_inv _ _ H) as [-> | ->]; [reflexivity | apply skipn_nil].
Qed.

Lemma slice_firstn {A} (a b n : nat) (l : list A) :
  (b <= n)%nat -> slice a b (firstn n l) = slice a b l.
Proof.
  intros Hb. unfold slice.
  rewrite skipn_firstn_comm, firstn_firstn.
  f_equal. lia.
Qed.

Lemma slice_0 {A} (b : nat) (l : list A) : slice 0 b l = firstn b l.
Proof. unfold slice. rewrite Nat.sub_0_r. reflexivity. Qed.

(** ** Equality tests *)

Lemma list_eqb_eq {A} (eqb : A -> A -> bool)
    (eqb_eq : forall a b, eqb a b = true <-> a = b) (l1 l2 : list A) :
  list_eqb eqb l1 l2 = true <-> l1 = l2.
Proof.
  revert l2. induction l1 as [|a l1 IH]; intros [|b l2]; simpl;
    try (split; [discriminate | discriminate]); try tauto.
  rewrite andb_true_iff, eqb_eq, IH. split.
  - intros [-> ->]. reflexivity.
  - intros H. injection H as -> ->. auto.
Qed.

Lemma byte_eqb_eq (a b : byte) : Byte.eqb a b = true <-> a = b.
Proof.
  split; [apply Byte.byte_dec_bl | apply Byte.byte_dec_lb].
Qed.

Lemma bytes_eqb_eq (a b : bytes) : bytes_eqb a b = true <-> a = b.
Proof. apply list_eqb_eq, byte_eqb_eq. Qed.

Lemma bytes_eqb_neq (a b : bytes) : a <> b -> bytes_eqb a b = false.
Proof.
  intros H. destruct (bytes_eqb a b) eqn:E; [|reflexivity].
  apply bytes_eqb_eq in E. contradiction.
Qed.

(** A [bytes] value never compares equal to text, whatever both hold. *)
Lemma py_eq_bytes_str (b : bytes) (s : str) : py_eq (VBytes b) (VStr s) = false.
Proof. reflexivity. Qed.

(** ** Unpacking the header *)

Lemma calcsize_header : calcsize GPT_HDR_FMT = 92%nat.
Proof. reflexivity. Qed.

Lemma calcsize_partition : calcsize GPT_PART_FMT = 128%nat.
Proof. reflexivity. Qed.

(** The tuple classes have the fields of the layout tables. *)
Lemma header_fields :
  snd (_make_fmt GPT_HEADER_FORMAT []) =
  ["signature"; "revision"; "header_size"; "crc32"; "current_lba";
   "backup_lba"; "first_usable_lba"; "last_usable_lba"; "disk_guid";
   "part_entry_start_lba"; "num_part_entries"; "part_entry_size";
   "crc32_part_array"]%string.
Proof. reflexivity. Qed.

Lemma partition_fields :
  snd (_make_fmt GPT_PARTITION_FORMAT ["index"%string]) =
  ["type"; "unique"; "first_lba"; "last_lba"; "flags"; "name"; "index"]%string.
Proof. reflexivity. Qed.

Lemma header_prefix (event : bytes) :
  py_take (Z.of_nat (calcsize GPT_HDR_FMT)) event = firstn 92 event.
Proof. rewrite py_take_nonneg by lia. rewrite Nat2Z.id. reflexivity. Qed.

Lemma unpack_header_short (event : bytes) :
  (length event < 92)%nat ->
  unpack GPT_HDR_FMT (firstn 92 event) = Raise struct_error.
Proof.
  intros H. unfold unpack. rewrite calcsize_header, length_firstn.
  destruct (Nat.eqb_spec (Nat.min 92 (length event)) 92); [lia | reflexivity].
Qed.

Lemma unpack_header_full (event : bytes) :
  (92 <= length event)%nat ->
  exists vs, unpack GPT_HDR_FMT (firstn 92 event) = Ok vs
             /\ GPTHeader_make vs = Ok (header_at event).
Proof.
  intros H. unfold unpack. rewrite calcsize_header, length_firstn.
  destruct (Nat.eqb_spec (Nat.min 92 (length event)) 92); [|lia].
  eexists. split; [reflexivity|].
  unfold GPT_HDR_FMT, GPT_HEADER_FORMAT, _make_fmt.
  cbn [map fst unpack_from code_size GPTHeader_make].
  unfold header_at, slice. norm_slices. reflexivity.
Qed.

(** ** [read_header] *)

Lemma read_header_short (event : bytes) :
  (length event < 92)%nat -> read_header event = Raise struct_error.
Proof.
  intros H. unfold read_header.
  rewrite header_prefix, unpack_header_short by assumption. reflexivity.
Qed.

Lemma slice_length {A} (a b : nat) (l : list A) :
  (b <= length l)%nat -> length (slice a b l) = (b - a)%nat.
Proof.
  intros H. unfold slice. rewrite length_firstn, length_skipn. lia.
Qed.

Lemma uuid_text_bytes (b : bytes) :
  length b = 16%nat ->
  exists i, UUID_bytes_le b = Ok i
            /\ uuid_text (VBytes b) = Ok (VStr (s_lit (UUID_str i))).
Proof.
  intros H. unfold uuid_text, UUID_bytes_le. rewrite H. cbn [Nat.eqb bind].
  eexists. split; reflexivity.
Qed.

(** On a buffer that holds the whole prefix the three checks run on the
    fields at their fixed places, in the order of the source. *)
Lemma read_header_full (event : bytes) :
  (92 <= length event)%nat ->
  read_header event =
  let header := header_at event in
  if negb (bytes_eqb (signature header) (b_lit "EFI PART"))
  then Raise (GPTError ("Bad signature: " ++ bytes_repr (signature header)))
  else if negb (bytes_eqb (revision header) [x00; x00; x01; x00])
  then Raise (GPTError ("Bad revision: " ++ bytes_repr (revision header)))
  else if header_size header <? 92
  then Raise (GPTError ("Bad header size: " ++ int_str (header_size header)))
  else
    g <- uuid_text (disk_guid header) ;;
    Ok (replace_disk_guid header g).
Proof.
  intros H. unfold read_header. rewrite header_prefix.
  destruct (unpack_header_full event H) as (vs & -> & Hmk).
  cbn [bind]. rewrite Hmk. reflexivity.
Qed.

(** The outcome of a successful call, spelled out. *)
Lemma read_header_ok (event : bytes) (h : GPTHeader) :
  read_header event = Ok h ->
  (92 <= length event)%nat
  /\ slice 0 8 event = b_lit "EFI PART"
  /\ slice 8 12 event = [x00; x00; x01; x00]
  /\ 92 <= uint_le (slice 12 16 event)
  /\ exists i, UUID_bytes_le (slice 56 72 event) = Ok i
       /\ h = replace_disk_guid (header_at event) (VStr (s_lit (UUID_str i))).
Proof.
  intros Hok.
  destruct (Nat.lt_ge_cases (length event) 92) as [Hlt | Hge].
  { rewrite read_header_short in Hok by assumption. discriminate. }
  rewrite read_header_full in Hok by assumption. cbv zeta in Hok.
  cbn [signature revision header_size disk_guid header_at] in Hok.
  destruct (bytes_eqb (slice 0 8 event) _) eqn:Es; [|discriminate].
  destruct (bytes_eqb (slice 8 12 event) _) eqn:Er; [|discriminate].
  cbn [negb] in Hok.
  destruct (Z.ltb_spec (uint_le (slice 12 16 event)) 92) as [|Hs];
    [discriminate|].
  apply bytes_eqb_eq in Es, Er.
  destruct (uuid_text_bytes (slice 56 72 event)) as (i & Hi & Ht).
  { rewrite slice_length by lia. reflexivity. }
  rewrite Ht in Hok. cbn [bind] in Hok. injection Hok as <-.
  repeat split; auto. exists i. split; [assumption | reflexivity].
Qed.

(** ** The GUID codec *)

Lemma byte_to_N_lt (x : byte) : (Byte.to_N x < 256)%N.
Proof. pose proof (Byte.to_N_bounded x). lia. Qed.

Lemma byte_of_to_N (x : byte) : byte_of_N (Byte.to_N x) = x.
Proof.
  unfold byte_of_N. rewrite N.mod_small by apply byte_to_N_lt.
  rewrite Byte.of_to_N. reflexivity.
Qed.

Lemma int_from_bytes_snoc (b : bytes) (x : byte) :
  int_from_bytes (b ++ [x]) = (int_from_bytes b * 256 + Byte.to_N x)%N.
Proof. unfold int_from_bytes. rewrite fold_left_app. reflexivity. Qed.

Lemma to_bytes_le_from_bytes (b : bytes) :
  to_bytes_le (length b) (int_from_bytes b) = rev b.
Proof.
  induction b as [|x b IH] using rev_ind; [reflexivity|].
  rewrite length_app, Nat.add_comm, rev_app_distr, int_from_bytes_snoc.
  cbn [length Nat.add to_bytes_le rev app].
  pose proof (byte_to_N_lt x) as Hx.
  replace ((int_from_bytes b * 256 + Byte.to_N x) mod 256)%N
    with (Byte.to_N x)
    by (rewrite N.add_comm, N.Div0.mod_add, N.mod_small; auto).
  replace ((int_from_bytes b * 256 + Byte.to_N x) / 256)%N
    with (int_from_bytes b)
    by (rewrite N.add_comm, N.div_add by lia;
        rewrite N.div_small by assumption; reflexivity).
  rewrite byte_of_to_N, IH. reflexivity.
Qed.

Lemma to_bytes_big_from_bytes (b : bytes) :
  to_bytes_big (length b) (int_from_bytes b) = b.
Proof. unfold to_bytes_big. rewrite to_bytes_le_from_bytes. apply rev_involutive. Qed.

Lemma string_of_list_ascii_app (l1 l2 : list ascii) :
  string_of_list_ascii (l1 ++ l2)
  = (string_of_list_ascii l1 ++ string_of_list_ascii l2)%string.
Proof. induction l1 as [|c l1 IH]; simpl; [reflexivity | now rewrite IH]. Qed.

Lemma string_append_assoc (a b c : string) :
  ((a ++ b) ++ c = a ++ (b ++ c))%string.
Proof. induction a as [|x a IH]; simpl; [reflexivity | now rewrite IH]. Qed.

Lemma hex_chars_snoc (b : bytes) (x : byte) :
  hex_chars (b ++ [x])
  = hex_chars b ++ [hex_digit (Byte.to_N x / 16)%N;
                    hex_digit (Byte.to_N x mod 16)%N].
Proof. unfold hex_chars. rewrite flat_map_app. simpl. reflexivity. Qed.

Lemma hex_width_from_bytes (b : bytes) (acc : string) :
  hex_width (2 * length b) (int_from_bytes b) acc
  = (string_of_list_ascii (hex_chars b) ++ acc)%string.
Proof.
  revert acc. induction b as [|x b IH] using rev_ind; intros acc;
    [reflexivity|].
  rewrite length_app, hex_chars_snoc, string_of_list_ascii_app,
    int_from_bytes_snoc.
  replace (2 * (length b + length [x]))%nat with (S (S (2 * length b)))
    by (simpl; lia).
  cbn [hex_width].
  pose proof (byte_to_N_lt x) as Hx.
  set (v := int_from_bytes b) in *. set (t := Byte.to_N x) in *.
  assert (H1 : ((v * 256 + t) mod 16 = t mod 16)%N).
  { replace (v * 256 + t)%N with (t + (v * 16) * 16)%N by lia.
    apply N.Div0.mod_add. }
  assert (H2 : ((v * 256 + t) / 16 = v * 16 + t / 16)%N).
  { replace (v * 256 + t)%N with (t + (v * 16) * 16)%N by lia.
    rewrite N.div_add by lia. lia. }
  assert (H3 : ((v * 16 + t / 16) mod 16 = t / 16)%N).
  { rewrite N.add_comm, N.Div0.mod_add. apply N.mod_small.
    apply N.Div0.div_lt_upper_bound. lia. }
  assert (H4 : ((v * 16 + t / 16) / 16 = v)%N).
  { rewrite N.add_comm, N.div_add by lia.
    rewrite (N.div_small (t / 16)); [reflexivity|].
    apply N.Div0.div_lt_upper_bound. lia. }
  rewrite H1, H2, H3, H4, IH.
  rewrite string_append_assoc. reflexivity.
Qed.

Lemma format_032x_from_bytes (b : bytes) :
  length b = 16%nat ->
  format_032x (int_from_bytes b) = string_of_list_ascii (hex_chars b).
Proof.
  intros H. unfold format_032x.
  change 32%nat with (2 * 16)%nat. rewrite <- H, hex_width_from_bytes.
  induction (string_of_list_ascii (hex_chars b)) as [|c s IH]; simpl;
    [reflexivity | now rewrite IH].
Qed.

Lemma hex_chars_length (b : bytes) : length (hex_chars b) = (2 * length b)%nat.
Proof.
  induction b as [|x b IH]; [reflexivity|].
  unfold hex_chars in *. cbn [flat_map app length]. rewrite IH. lia.
Qed.

(** [str(uuid)] cuts the 32 digits into the five groups. *)
Lemma hyphenate_digits (cs : list ascii) :
  length cs = 32%nat ->
  let x := string_of_list_ascii cs in
  s_lit (substring 0 8 x ++ "-" ++ substring 8 4 x ++ "-" ++ substring 12 4 x
         ++ "-" ++ substring 16 4 x ++ "-" ++ string_from 20 x)
  = guid_layout (map N_of_ascii cs).
Proof.
  intros H.
  do 32 (destruct cs as [|? cs]; [discriminate|]).
  destruct cs; [|discriminate]. reflexivity.
Qed.

Lemma UUID_str_from_bytes (b : bytes) :
  length b = 16%nat ->
  s_lit (UUID_str (int_from_bytes b))
  = guid_layout (map N_of_ascii (hex_chars b)).
Proof.
  intros H. unfold UUID_str. rewrite format_032x_from_bytes by assumption.
  apply hyphenate_digits. rewrite hex_chars_length, H. reflexivity.
Qed.

Lemma hex_digit_spec (d : N) :
  (d < 16)%N ->
  hex_value (N_of_ascii (hex_digit d)) = Some d
  /\ is_lower_hex (N_of_ascii (hex_digit d)) = true
  /\ (N_of_ascii (hex_digit d) =? hyphen)%N = false.
Proof.
  intros H. destruct d as [|p]; [repeat split|].
  repeat (destruct p as [p|p|]; try lia; try (repeat split; fail)).
Qed.

Lemma byte_digits (x : byte) :
  (Byte.to_N x / 16 < 16)%N /\ (Byte.to_N x mod 16 < 16)%N.
Proof.
  pose proof (byte_to_N_lt x). split.
  - apply N.Div0.div_lt_upper_bound. lia.
  - apply N.mod_lt. lia.
Qed.

Lemma hex_chars_digits (b : bytes) :
  Forall (fun c => is_lower_hex c = true /\ (c =? hyphen)%N = false)
    (map N_of_ascii (hex_chars b)).
Proof.
  induction b as [|x b IH]; [constructor|].
  destruct (byte_digits x) as [Hhi Hlo].
  unfold hex_chars in *. cbn [flat_map app map].
  constructor; [apply hex_digit_spec; assumption|].
  constructor; [apply hex_digit_spec; assumption | exact IH].
Qed.

Lemma parse_hex_chars (b : bytes) (acc : N) :
  parse_hex acc (map N_of_ascii (hex_chars b))
  = Some (fold_left (fun a x => (a * 256 + Byte.to_N x)%N) b acc).
Proof.
  revert acc. induction b as [|x b IH]; intros acc; [reflexivity|].
  destruct (byte_digits x) as [Hhi Hlo].
  unfold hex_chars in *. cbn [flat_map app map parse_hex fold_left].
  destruct (hex_digit_spec _ Hhi) as [-> _].
  destruct (hex_digit_spec _ Hlo) as [-> _].
  rewrite IH. do 2 f_equal.
  pose proof (N.div_mod (Byte.to_N x) 16). lia.
Qed.

Lemma guid_layout_digits (l : str) :
  firstn 8 l ++ slice 8 12 l ++ slice 12 16 l ++ slice 16 20 l ++ skipn 20 l
  = l.
Proof.
  unfold slice. cbn [Nat.sub].
  replace (skipn 20 l) with (skipn 4 (skipn 16 l))
    by (rewrite skipn_skipn; reflexivity).
  rewrite firstn_skipn.
  replace (skipn 16 l) with (skipn 4 (skipn 12 l))
    by (rewrite skipn_skipn; reflexivity).
  rewrite firstn_skipn.
  replace (skipn 12 l) with (skipn 4 (skipn 8 l))
    by (rewrite skipn_skipn; reflexivity).
  rewrite firstn_skipn. apply firstn_skipn.
Qed.

Lemma filter_keep {A} (f : A -> bool) (l : list A) :
  Forall (fun a => f a = true) l -> filter f l = l.
Proof.
  induction 1 as [|a l Ha _ IH]; simpl; [reflexivity|].
  rewrite Ha, IH. reflexivity.
Qed.

Lemma Forall_firstn {A} (P : A -> Prop) (n : nat) (l : list A) :
  Forall P l -> Forall P (firstn n l).
Proof.
  intros H. revert n. induction H; intros [|n]; simpl; constructor; auto.
Qed.

Lemma Forall_skipn {A} (P : A -> Prop) (n : nat) (l : list A) :
  Forall P l -> Forall P (skipn n l).
Proof.
  intros H. revert n. induction H; intros [|n]; simpl; auto.
Qed.

Lemma Forall_slice {A} (P : A -> Prop) (a b : nat) (l : list A) :
  Forall P l -> Forall P (slice a b l).
Proof. intros H. apply Forall_firstn, Forall_skipn, H. Qed.

(** Dropping the hyphens gives the digits back. *)
Lemma drop_hyphens (l : str) :
  Forall (fun c => (c =? hyphen)%N = false) l ->
  filter (fun c => negb (c =? hyphen)%N) (guid_layout l) = l.
Proof.
  intros H. unfold guid_layout.
  assert (Hk : forall m, Forall (fun c => (c =? hyphen)%N = false) m ->
                         filter (fun c => negb (c =? hyphen)%N) m = m).
  { intros m Hm. apply filter_keep.
    eapply Forall_impl; [|exact Hm]. cbv beta. intros c ->. reflexivity. }
  repeat (rewrite filter_app; cbn [filter]; rewrite N.eqb_refl; cbn [negb]).
  rewrite !Hk by auto using Forall_firstn, Forall_skipn, Forall_slice.
  apply guid_layout_digits.
Qed.

Lemma swap_fields_length (b : bytes) :
  length b = 16%nat -> length (swap_fields b) = 16%nat.
Proof.
  intros H. do 16 (destruct b as [|? b]; [discriminate|]).
  destruct b; [reflexivity | discriminate].
Qed.

Lemma swap_fields_involutive (b : bytes) :
  length b = 16%nat -> swap_fields (swap_fields b) = b.
Proof.
  intros H. do 16 (destruct b as [|? b]; [discriminate|]).
  destruct b; [reflexivity | discriminate].
Qed.

Lemma UUID_bytes_le_ok (b : bytes) :
  length b = 16%nat -> UUID_bytes_le b = Ok (int_from_bytes (swap_fields b)).
Proof. intros H. unfold UUID_bytes_le. rewrite H. reflexivity. Qed.

(** Encoding the text of a GUID gives back the bytes it was made from. *)
Lemma guid_round_trip (b : bytes) (i : N) :
  UUID_bytes_le b = Ok i ->
  guid_encode (s_lit (UUID_str i)) = Some b.
Proof.
  intros H.
  assert (Hlen : length b = 16%nat).
  { unfold UUID_bytes_le in H.
    destruct (Nat.eqb_spec (length b) 16); [assumption | discriminate]. }
  rewrite UUID_bytes_le_ok in H by assumption. injection H as <-.
  pose proof (swap_fields_length b Hlen) as Hs.
  rewrite UUID_str_from_bytes by assumption.
  unfold guid_encode.
  rewrite drop_hyphens.
  2:{ eapply Forall_impl; [|apply hex_chars_digits]. cbv beta. tauto. }
  rewrite length_map, hex_chars_length, Hs. cbn [Nat.mul Nat.add Nat.eqb].
  rewrite parse_hex_chars.
  change (fold_left _ (swap_fields b) 0%N) with (int_from_bytes (swap_fields b)).
  assert (Ht : to_bytes_big 16 (int_from_bytes (swap_fields b))
               = swap_fields b)
    by (rewrite <- Hs; apply to_bytes_big_from_bytes).
  cbv zeta. rewrite Ht.
  change (Some (swap_fields (swap_fields b)) = Some b).
  rewrite swap_fields_involutive by assumption. reflexivity.
Qed.

(** The text has the canonical shape. *)
Lemma UUID_str_canonical (b : bytes) (i : N) :
  UUID_bytes_le b = Ok i -> is_canonical_guid (s_lit (UUID_str i)) = true.
Proof.
  intros H.
  assert (Hlen : length b = 16%nat).
  { unfold UUID_bytes_le in H.
    destruct (Nat.eqb_spec (length b) 16); [assumption | discriminate]. }
  rewrite UUID_bytes_le_ok in H by assumption. injection H as <-.
  pose proof (swap_fields_length b Hlen) as Hs.
  rewrite UUID_str_from_bytes by assumption.
  pose proof (hex_chars_digits (swap_fields b)) as Hd.
  assert (Hl : length (map N_of_ascii (hex_chars (swap_fields b))) = 32%nat).
  { rewrite length_map, hex_chars_length, Hs. reflexivity. }
  assert (Hf : forallb is_lower_hex
                 (map N_of_ascii (hex_chars (swap_fields b))) = true).
  { apply forallb_forall. intros c Hc.
    rewrite Forall_forall in Hd. apply Hd, Hc. }
  clear Hd. revert Hf Hl.
  generalize (map N_of_ascii (hex_chars (swap_fields b))).
  intros l Hf Hl.
  do 32 (destruct l as [|? l]; [discriminate|]).
  destruct l; [|discriminate].
  unfold is_canonical_guid.
  rewrite !andb_true_iff. split; [split; reflexivity|].
  exact Hf.
Qed.

(** ** What [read_header] guarantees *)

(** C4, amended.  A buffer shorter than the 92-byte prefix makes
    [struct.unpack] raise [struct.error]; that exception is not a
    [GPTError], and none of the three field checks is reached, so no
    "Bad signature", "Bad revision" or "Bad header size" error can come
    out. *)
Theorem read_header_short_buffer (event : bytes) :
  (length event < 92)%nat ->
  read_header event = Raise struct_error
  /\ forall msg, read_header event <> Raise (GPTError msg).
Proof.
  intros H. rewrite read_header_short by assumption.
  split; [reflexivity | discriminate].
Qed.

Lemma read_header_short_buffer_witness :
  (length (firstn 91 example_event) < 92)%nat
  /\ read_header (firstn 91 example_event) = Raise struct_error.
Proof.
  assert (H : (length (firstn 91 example_event) < 92)%nat)
    by (vm_compute; lia).
  split; [exact H | exact (proj1 (read_header_short_buffer _ H))].
Defined.

(** C4 as stated fails: a valid header cut to 91 bytes is rejected with
    an exception outside the decoder's own error class. *)
Lemma short_buffer_error_is_not_GPTError :
  (length (firstn 91 example_event) < 92)%nat
  /\ read_header (firstn 91 example_event) = Raise struct_error
  /\ ~ exists msg, read_header (firstn 91 example_event) = Raise (GPTError msg).
Proof.
  split; [vm_compute; lia|].
  split; [vm_compute; reflexivity|].
  intros [msg H]. vm_compute in H. discriminate.
Qed.

(** C7.  A header that [read_header] returns has the signature
    ["EFI PART"], the revision bytes 00 00 01 00 and a header size of at
    least 92; every other call raises, so no header that violates one of
    the three conditions is ever returned. *)
Theorem read_header_validated (event : bytes) (h : GPTHeader) :
  read_header event = Ok h ->
  signature h = b_lit "EFI PART"
  /\ revision h = [x00; x00; x01; x00]
  /\ 92 <= header_size h.
Proof.
  intros H. apply read_header_ok in H.
  destruct H as (_ & Hs & Hr & Hz & i & _ & ->).
  cbn [replace_disk_guid signature revision header_size header_at]. auto.
Qed.

Lemma read_header_validated_witness :
  read_header example_event = Ok (header_of example_event)
  /\ signature (header_of example_event) = b_lit "EFI PART"
  /\ revision (header_of example_event) = [x00; x00; x01; x00]
  /\ 92 <= header_size (header_of example_event).
Proof.
  assert (H : read_header example_event = Ok (header_of example_event))
    by (vm_compute; reflexivity).
  split; [exact H | exact (read_header_validated _ _ H)].
Defined.

(** C10.  [read_header] looks at the first 92 bytes only: two buffers
    that agree there get the same header or the same error. *)
Theorem read_header_prefix_only (event1 event2 : bytes) :
  firstn 92 event1 = firstn 92 event2 ->
  read_header event1 = read_header event2.
Proof.
  intros H. unfold read_header. rewrite !header_prefix, H. reflexivity.
Qed.

Lemma read_header_prefix_only_witness :
  firstn 92 example_event = firstn 92 (firstn 92 example_event ++ [xff; x00])
  /\ read_header example_event
     = read_header (firstn 92 example_event ++ [xff; x00]).
Proof.
  assert (H : firstn 92 example_event
              = firstn 92 (firstn 92 example_event ++ [xff; x00]))
    by (vm_compute; reflexivity).
  split; [exact H | exact (read_header_prefix_only _ _ H)].
Defined.

(** C6.  In a header that [read_header] returns, every field is the
    content of its region of the buffer (byte strings as they are,
    integers little-endian), except [disk_guid], which is the canonical
    hyphenated text of bytes 56..72; encoding that text gives those 16
    bytes back. *)
Theorem read_header_fields (event : bytes) (h : GPTHeader) :
  read_header event = Ok h ->
  signature h = slice 0 8 event
  /\ revision h = slice 8 12 event
  /\ header_size h = uint_le (slice 12 16 event)
  /\ crc32 h = uint_le (slice 16 20 event)
  /\ current_lba h = uint_le (slice 24 32 event)
  /\ backup_lba h = uint_le (slice 32 40 event)
  /\ first_usable_lba h = uint_le (slice 40 48 event)
  /\ last_usable_lba h = uint_le (slice 48 56 event)
  /\ part_entry_start_lba h = uint_le (slice 72 80 event)
  /\ num_part_entries h = uint_le (slice 80 84 event)
  /\ part_entry_size h = uint_le (slice 84 88 event)
  /\ crc32_part_array h = uint_le (slice 88 92 event)
  /\ exists text,
       disk_guid h = VStr text
       /\ is_canonical_guid text = true
       /\ guid_encode text = Some (slice 56 72 event).
Proof.
  intros H. apply read_header_ok in H.
  destruct H as (_ & _ & _ & _ & i & Hi & ->).
  cbn [replace_disk_guid header_at signature revision header_size crc32
       current_lba backup_lba first_usable_lba last_usable_lba disk_guid
       part_entry_start_lba num_part_entries part_entry_size
       crc32_part_array].
  repeat (split; [reflexivity|]).
  exists (s_lit (UUID_str i)). split; [reflexivity|]. split.
  - eapply UUID_str_canonical, Hi.
  - apply guid_round_trip, Hi.
Qed.

Lemma read_header_fields_witness :
  read_header example_event = Ok (header_of example_event)
  /\ disk_guid (header_of example_event)
     = VStr (s_lit "04030201-0605-0807-090a-0b0c0d0e0f10")
  /\ guid_encode (s_lit "04030201-0605-0807-090a-0b0c0d0e0f10")
     = Some sample_guid.
Proof.
  assert (H : read_header example_event = Ok (header_of example_event))
    by (vm_compute; reflexivity).
  split; [exact H|].
  destruct (read_header_fields _ _ H)
    as (_ & _ & _ & _ & _ & _ & _ & _ & _ & _ & _ & _ & text & Ht & _ & He).
  assert (E : text = s_lit "04030201-0605-0807-090a-0b0c0d0e0f10").
  { vm_compute in Ht. injection Ht as <-. vm_compute. reflexivity. }
  subst text. split; [vm_compute; reflexivity|].
  rewrite He. vm_compute. reflexivity.
Defined.

(** ** The text of a [bytes] value determines the value *)

Lemma string_concat_cons (x : string) (xs : list string) :
  String.concat "" (x :: xs) = (x ++ String.concat "" xs)%string.
Proof.
  destruct xs as [|y xs]; simpl; [|reflexivity].
  induction x as [|c x IH]; simpl; [reflexivity | now rewrite <- IH].
Qed.

Lemma unrepr_repr_byte (q x : byte) (r : string) :
  q = squote \/ q = dquote ->
  unrepr_byte (repr_byte q x ++ r) = Some (x, r).
Proof.
  intros [-> | ->]; destruct x; reflexivity.
Qed.

Lemma unrepr_quote (q : byte) (r : string) :
  q = squote \/ q = dquote ->
  unrepr_byte (String (ascii_of_byte q) r) = Some (q, r).
Proof. intros [-> | ->]; reflexivity. Qed.

Lemma repr_body_inj (q : byte) (b1 b2 : bytes) :
  q = squote \/ q = dquote ->
  (String.concat "" (map (repr_byte q) b1) ++ String (ascii_of_byte q) ""
   = String.concat "" (map (repr_byte q) b2) ++ String (ascii_of_byte q) "")%string ->
  b1 = b2.
Proof.
  intros Hq. revert b2.
  induction b1 as [|x b1 IH]; intros [|y b2] H; cbn [map] in H;
    rewrite ?string_concat_cons, ?string_append_assoc in H.
  - reflexivity.
  - apply (f_equal unrepr_byte) in H. cbn [String.concat append] in H.
    rewrite unrepr_quote, unrepr_repr_byte in H by assumption.
    injection H as _ H. destruct (String.concat "" _); discriminate.
  - apply (f_equal unrepr_byte) in H. cbn [String.concat append] in H.
    rewrite unrepr_quote, unrepr_repr_byte in H by assumption.
    injection H as _ H. destruct (String.concat "" _); discriminate.
  - apply (f_equal unrepr_byte) in H.
    rewrite !unrepr_repr_byte in H by assumption.
    injection H as -> H. f_equal. apply IH, H.
Qed.

Lemma bytes_repr_inj (b1 b2 : bytes) :
  bytes_repr b1 = bytes_repr b2 -> b1 = b2.
Proof.
  unfold bytes_repr. intros H.
  set (q1 := repr_quote b1) in H. set (q2 := repr_quote b2) in H.
  assert (H1 : q1 = squote \/ q1 = dquote)
    by (subst q1; unfold repr_quote; destruct (_ && _); auto).
  assert (H2 : q2 = squote \/ q2 = dquote)
    by (subst q2; unfold repr_quote; destruct (_ && _); auto).
  clearbody q1 q2.
  injection H as Hq H.
  assert (q1 = q2).
  { destruct H1 as [-> | ->], H2 as [-> | ->];
      try reflexivity; vm_compute in Hq; discriminate. }
  subst q2. eapply repr_body_inj; eauto.
Qed.

(** C8.  On a buffer of at least 92 bytes whose first eight bytes are
    not ["EFI PART"], [read_header] raises the [GPTError] whose message
    is "Bad signature: " followed by the [repr] of those eight bytes,
    whatever the other fields hold; the [repr] determines the bytes. *)
Theorem read_header_bad_signature (event : bytes) :
  (92 <= length event)%nat ->
  firstn 8 event <> b_lit "EFI PART" ->
  read_header event
  = Raise (GPTError ("Bad signature: " ++ bytes_repr (firstn 8 event)))
  /\ forall b, bytes_repr b = bytes_repr (firstn 8 event) -> b = firstn 8 event.
Proof.
  intros Hlen Hsig. split; [|intros b; apply bytes_repr_inj].
  rewrite read_header_full by assumption. cbv zeta.
  cbn [header_at signature]. rewrite slice_0.
  rewrite bytes_eqb_neq by assumption. reflexivity.
Qed.

Lemma read_header_bad_signature_witness :
  (92 <= length (x00 :: example_event))%nat
  /\ firstn 8 (x00 :: example_event) <> b_lit "EFI PART"
  /\ read_header (x00 :: example_event)
     = Raise (GPTError "Bad signature: b'\x00EFI PAR'").
Proof.
  assert (H1 : (92 <= length (x00 :: example_event))%nat)
    by (vm_compute; lia).
  assert (H2 : firstn 8 (x00 :: example_event) <> b_lit "EFI PART")
    by (vm_compute; discriminate).
  split; [exact H1|]. split; [exact H2|].
  destruct (read_header_bad_signature _ H1 H2) as [H _].
  rewrite H. vm_compute. reflexivity.
Defined.

(** ** The loop of [read_partitions] *)

Lemma loop_cons (bo : byteorder) (h : GPTHeader) (event : bytes) (i : Z)
    (idxs : list Z) :
  read_partitions_loop bo h event (i :: idxs) =
  match read_entry bo i (py_take (part_entry_size h) event) with
  | EntryEnd => ([], Done)
  | EntryError e => ([], Raised e)
  | EntrySkipped =>
      read_partitions_loop bo h (py_drop (part_entry_size h) event) idxs
  | EntryYield p =>
      yield p
        (read_partitions_loop bo h (py_drop (part_entry_size h) event) idxs)
  end.
Proof.
  unfold read_entry. cbn [read_partitions_loop].
  destruct (is_empty _); [reflexivity|].
  destruct (_ <? _); [reflexivity|].
  destruct (bind _ _) as [part|e]; [|reflexivity].
  destruct (py_eq _ _); [reflexivity|].
  destruct (bind _ _); reflexivity.
Qed.

Lemma loop_nil (bo : byteorder) (h : GPTHeader) (event : bytes) :
  read_partitions_loop bo h event [] = ([], Done).
Proof. reflexivity. Qed.

(** An empty slice ends the generator, whatever is left to visit. *)
Lemma loop_empty_slice (bo : byteorder) (h : GPTHeader) (event : bytes)
    (idxs : list Z) :
  py_take (part_entry_size h) event = [] ->
  read_partitions_loop bo h event idxs = ([], Done).
Proof.
  intros H. destruct idxs as [|i idxs]; [reflexivity|].
  rewrite loop_cons, H. reflexivity.
Qed.

Lemma rest_after_empty_slice (h : GPTHeader) (event : bytes) (k : nat) :
  py_take (part_entry_size h) event = [] -> rest_after h k event = event.
Proof.
  intros H. induction k as [|k IH]; [reflexivity|].
  cbn [rest_after]. rewrite (py_take_nil_drop _ _ H). exact IH.
Qed.

(** Visiting [l1 ++ l2] is visiting [l1] and, unless that raised, going
    on with [l2] on what [l1] left of the buffer. *)
Lemma loop_app (bo : byteorder) (h : GPTHeader) (l1 l2 : list Z)
    (event : bytes) :
  read_partitions_loop bo h event (l1 ++ l2) =
  match read_partitions_loop bo h event l1 with
  | (ys, Done) =>
      let r :=
        read_partitions_loop bo h (rest_after h (length l1) event) l2 in
      (ys ++ fst r, snd r)
  | (ys, Raised e) => (ys, Raised e)
  end.
Proof.
  revert event. induction l1 as [|i l1 IH]; intros event.
  - cbn [app length rest_after]. rewrite loop_nil. cbv zeta.
    destruct (read_partitions_loop bo h event l2); reflexivity.
  - cbn [app length rest_after]. rewrite !loop_cons.
    destruct (read_entry _ _ _) eqn:E.
    + assert (Hd : py_take (part_entry_size h) event = []).
      { unfold read_entry in E.
        destruct (py_take (part_entry_size h) event); [reflexivity|].
        cbn [is_empty] in E. destruct (_ <? _); [discriminate|].
        destruct (bind _ _); [|discriminate].
        destruct (py_eq _ _); [discriminate|].
        destruct (bind _ _); discriminate. }
      rewrite (py_take_nil_drop _ _ Hd).
      rewrite rest_after_empty_slice, loop_empty_slice by assumption.
      reflexivity.
    + reflexivity.
    + apply IH.
    + rewrite IH.
      destruct (read_partitions_loop bo h _ l1) as [ys [|e]];
        reflexivity.
Qed.

Lemma unpack_partition_exact (data : bytes) (i : Z) :
  length data = 128%nat ->
  (vs <- unpack GPT_PART_FMT data ;; GPTPartition_make (vs ++ [VInt i]))
  = Ok (partition_at data i).
Proof.
  intros H. unfold unpack. rewrite calcsize_partition, H.
  cbn [Nat.eqb bind]. unfold GPT_PART_FMT, GPT_PARTITION_FORMAT, _make_fmt.
  cbn [map fst unpack_from code_size app GPTPartition_make].
  unfold partition_at, slice. norm_slices. reflexivity.
Qed.

Lemma unpack_partition_long (data : bytes) (i : Z) :
  (128 < length data)%nat ->
  (vs <- unpack GPT_PART_FMT data ;; GPTPartition_make (vs ++ [VInt i]))
  = Raise struct_error.
Proof.
  intros H. unfold unpack. rewrite calcsize_partition.
  destruct (Nat.eqb_spec (length data) 128); [lia | reflexivity].
Qed.

(** A slice of exactly 128 bytes is yielded unless its name does not
    decode; the type GUID plays no part in that. *)
Lemma read_entry_complete (bo : byteorder) (i : Z) (data : bytes) :
  length data = 128%nat ->
  exists ty un,
    uuid_text (VBytes (slice 0 16 data)) = Ok ty
    /\ uuid_text (VBytes (slice 16 32 data)) = Ok un
    /\ read_entry bo i data =
       match decode_name bo (VBytes (slice 56 128 data)) with
       | Ok nm =>
           EntryYield (replace_type_unique_name (partition_at data i) ty un nm)
       | Raise e => EntryError e
       end.
Proof.
  intros H.
  destruct (uuid_text_bytes (slice 0 16 data)) as (i1 & _ & H1).
  { rewrite slice_length by lia. reflexivity. }
  destruct (uuid_text_bytes (slice 16 32 data)) as (i2 & _ & H2).
  { rewrite slice_length by lia. reflexivity. }
  exists (VStr (s_lit (UUID_str i1))), (VStr (s_lit (UUID_str i2))).
  split; [assumption|]. split; [assumption|].
  unfold read_entry. rewrite unpack_partition_exact by assumption.
  destruct data as [|x data]; [discriminate|]. cbn [is_empty].
  unfold len. rewrite H, calcsize_partition. cbn [Z.ltb Z.of_nat Z.compare
    Pos.of_succ_nat Pos.succ Pos.compare Pos.compare_cont].
  change (Z.of_nat 128 <? Z.of_nat 128) with false. cbv iota.
  cbn [partition_at type unique name py_eq].
  rewrite H1, H2. cbn [bind].
  destruct (decode_name _ _); reflexivity.
Qed.

(** The test for an unused slot compares [bytes] with text and is
    never true: no slot is skipped. *)
Lemma read_entry_never_skips (bo : byteorder) (i : Z) (data : bytes) :
  read_entry bo i data <> EntrySkipped.
Proof.
  destruct (Nat.lt_trichotomy (length data) 128) as [Hlt | [Heq | Hgt]].
  - unfold read_entry. destruct (is_empty data); [discriminate|].
    unfold len. rewrite calcsize_partition.
    destruct (Z.ltb_spec (Z.of_nat (length data)) (Z.of_nat 128));
      [discriminate | lia].
  - destruct (read_entry_complete bo i data Heq) as (ty & un & _ & _ & ->).
    destruct (decode_name _ _); discriminate.
  - unfold read_entry. rewrite unpack_partition_long by assumption.
    destruct (is_empty data); [discriminate|].
    destruct (_ <? _); discriminate.
Qed.

(** Every record carries the index of the iteration that yielded it. *)
Lemma read_entry_index (bo : byteorder) (i : Z) (data : bytes)
    (p : GPTPartition) :
  read_entry bo i data = EntryYield p -> index p = i.
Proof.
  destruct (Nat.lt_trichotomy (length data) 128) as [Hlt | [Heq | Hgt]].
  - unfold read_entry. destruct (is_empty data); [discriminate|].
    unfold len. rewrite calcsize_partition.
    destruct (Z.ltb_spec (Z.of_nat (length data)) (Z.of_nat 128));
      [discriminate | lia].
  - destruct (read_entry_complete bo i data Heq) as (ty & un & _ & _ & ->).
    destruct (decode_name _ _); [|discriminate].
    intros H. injection H as <-. reflexivity.
  - unfold read_entry. rewrite unpack_partition_long by assumption.
    destruct (is_empty data); [discriminate|].
    destruct (_ <? _); discriminate.
Qed.

Lemma loop_indices (bo : byteorder) (h : GPTHeader) (idxs : list Z)
    (event : bytes) :
  Forall (fun p => In (index p) idxs)
    (fst (read_partitions_loop bo h event idxs)).
Proof.
  revert event. induction idxs as [|i idxs IH]; intros event.
  - constructor.
  - rewrite loop_cons. destruct (read_entry _ _ _) eqn:E.
    + constructor.
    + constructor.
    + eapply Forall_impl; [|apply IH]. cbv beta. intros p Hp. now right.
    + cbn [yield fst]. constructor.
      * left. symmetry. eapply read_entry_index, E.
      * eapply Forall_impl; [|apply IH]. cbv beta. intros q Hq. now right.
Qed.

Lemma loop_length (bo : byteorder) (h : GPTHeader) (idxs : list Z)
    (event : bytes) :
  (length (fst (read_partitions_loop bo h event idxs)) <= length idxs)%nat.
Proof.
  revert event. induction idxs as [|i idxs IH]; intros event.
  - apply le_n.
  - rewrite loop_cons. destruct (read_entry _ _ _).
    + cbn. lia.
    + cbn. lia.
    + specialize (IH (py_drop (part_entry_size h) event)). cbn [length]. lia.
    + specialize (IH (py_drop (part_entry_size h) event)).
      cbn [yield fst length]. lia.
Qed.


(** ** [range] and the header's part in the loop *)

Lemma py_range_length (a b : Z) : length (py_range a b) = Z.to_nat (b - a).
Proof. unfold py_range. rewrite length_map, length_seq. reflexivity. Qed.

Lemma py_range_In (a b x : Z) : In x (py_range a b) -> a <= x < b.
Proof.
  unfold py_range. rewrite in_map_iff. intros (k & <- & Hk).
  apply in_seq in Hk. lia.
Qed.

Lemma map_seq_from (a : Z) (s n : nat) :
  map (fun k => a + Z.of_nat k) (seq s n)
  = map (fun k => a + Z.of_nat s + Z.of_nat k) (seq 0 n).
Proof.
  revert a s. induction n as [|n IH]; intros a s; [reflexivity|].
  cbn [seq map]. f_equal; [lia|].
  rewrite (IH a (S s)), (IH (a + Z.of_nat s) 1%nat).
  apply map_ext. intros k. lia.
Qed.

Lemma py_range_app (a b c : Z) :
  a <= b <= c -> py_range a c = py_range a b ++ py_range b c.
Proof.
  intros H. unfold py_range.
  replace (Z.to_nat (c - a)) with (Z.to_nat (b - a) + Z.to_nat (c - b))%nat
    by lia.
  rewrite seq_app, map_app. f_equal. cbn [Nat.add].
  rewrite map_seq_from. apply map_ext. intros k. lia.
Qed.

Lemma py_range_cons (a b : Z) :
  a < b -> py_range a b = a :: py_range (a + 1) b.
Proof.
  intros H. rewrite (py_range_app a (a + 1) b) by lia.
  unfold py_range at 1. replace (a + 1 - a) with 1 by lia.
  change (Z.to_nat 1) with 1%nat. cbn [seq map app].
  rewrite Z.add_0_r. reflexivity.
Qed.

(** The loop reads nothing of the header but the entry size. *)
Lemma loop_with_num_part_entries (bo : byteorder) (h : GPTHeader) (n : Z)
    (idxs : list Z) (event : bytes) :
  read_partitions_loop bo (with_num_part_entries h n) event idxs
  = read_partitions_loop bo h event idxs.
Proof.
  revert event. induction idxs as [|i idxs IH]; intros event; [reflexivity|].
  rewrite !loop_cons. cbn [with_num_part_entries part_entry_size].
  rewrite IH. reflexivity.
Qed.

Lemma read_partitions_unfold (bo : byteorder) (event : bytes) (h : GPTHeader)
    (lba_size : option Z) :
  read_partitions bo event h lba_size
  = read_partitions_loop bo h (partition_array event h lba_size)
      (py_range 1 (1 + num_part_entries h)).
Proof. destruct lba_size; reflexivity. Qed.

Lemma read_partitions_first (bo : byteorder) (event : bytes) (h : GPTHeader)
    (lba_size : option Z) (k : Z) :
  read_partitions bo event (with_num_part_entries h k) lba_size
  = read_partitions_loop bo h (partition_array event h lba_size)
      (py_range 1 (1 + k)).
Proof.
  rewrite read_partitions_unfold, loop_with_num_part_entries. reflexivity.
Qed.

Lemma read_entry_short (bo : byteorder) (i : Z) (data : bytes) :
  data <> [] -> len data < 128 ->
  read_entry bo i data = EntryError short_partition_entry.
Proof.
  intros Hne Hlt. unfold read_entry.
  destruct data as [|x data]; [contradiction|]. cbn [is_empty].
  rewrite calcsize_partition.
  destruct (Z.ltb_spec (len (x :: data)) (Z.of_nat 128)); [reflexivity | lia].
Qed.

(** ** What [read_partitions] guarantees *)

(** C5.  When the slice of an iteration is empty the generator returns
    without an error although entries are still promised: if the first
    [k] iterations run through and slice [k + 1] is empty, the whole
    run yields what those [k] iterations yield and ends normally.  In
    every case the loop body runs at most [num_part_entries] times, so
    at most that many records are yielded. *)
Theorem read_partitions_empty_slice (bo : byteorder) (event : bytes)
    (header : GPTHeader) (lba_size : option Z) :
  (forall k ys,
      0 <= k < num_part_entries header ->
      read_partitions bo event (with_num_part_entries header k) lba_size
      = (ys, Done) ->
      entry_slice header (partition_array event header lba_size) (k + 1) = [] ->
      read_partitions bo event header lba_size = (ys, Done))
  /\ (forall i idxs rest,
         py_take (part_entry_size header) rest = [] ->
         read_partitions_loop bo header rest (i :: idxs) = ([], Done))
  /\ (length (fst (read_partitions bo event header lba_size))
      <= Z.to_nat (num_part_entries header))%nat.
Proof.
  split; [|split].
  - intros k ys Hk Hrun Hempty.
    rewrite read_partitions_first in Hrun.
    rewrite read_partitions_unfold.
    rewrite (py_range_app 1 (1 + k) (1 + num_part_entries header)) by lia.
    rewrite loop_app, Hrun. cbv zeta.
    rewrite py_range_length.
    unfold entry_slice in Hempty.
    replace (Z.to_nat (k + 1 - 1)) with (Z.to_nat (1 + k - 1)) in Hempty by lia.
    rewrite loop_empty_slice by exact Hempty.
    cbn [fst snd]. rewrite app_nil_r. reflexivity.
  - intros i idxs rest H. apply loop_empty_slice, H.
  - rewrite read_partitions_unfold.
    etransitivity; [apply loop_length|].
    rewrite py_range_length. lia.
Qed.

Lemma read_partitions_empty_slice_witness :
  0 <= 1 < num_part_entries (header_of exhausted_event)
  /\ entry_slice (header_of exhausted_event)
       (partition_array exhausted_event (header_of exhausted_event) (Some 92))
       (1 + 1) = []
  /\ read_partitions little exhausted_event (header_of exhausted_event)
       (Some 92)
     = (fst (read_partitions little exhausted_event
               (with_num_part_entries (header_of exhausted_event) 1)
               (Some 92)), Done)
  /\ map index (fst (read_partitions little exhausted_event
                       (header_of exhausted_event) (Some 92))) = [1].
Proof.
  set (h := header_of exhausted_event).
  set (ys := fst (read_partitions little exhausted_event
                    (with_num_part_entries h 1) (Some 92))).
  assert (H1 : 0 <= 1 < num_part_entries h) by (vm_compute; split; congruence).
  assert (H2 : read_partitions little exhausted_event
                 (with_num_part_entries h 1) (Some 92) = (ys, Done))
    by (vm_compute; reflexivity).
  assert (H3 : entry_slice h (partition_array exhausted_event h (Some 92))
                 (1 + 1) = []) by (vm_compute; reflexivity).
  split; [exact H1|]. split; [exact H3|]. split.
  - exact (proj1 (read_partitions_empty_slice little exhausted_event h
                    (Some 92)) 1 ys H1 H2 H3).
  - vm_compute. reflexivity.
Defined.


(** C9, amended.  The loop starts at byte
    [part_entry_start_lba * lba_size] of the buffer: whatever lies in
    front of that offset is cut off and the entries are read from the
    rest.  [lba_size] is an optional parameter whose default is 50, so a
    call that leaves it out is a call with 50. *)
Theorem read_partitions_offset (bo : byteorder) (prefix arr : bytes)
    (header : GPTHeader) (lba_size : option Z) :
  len prefix = part_entry_start_lba header * lba_size_or_default lba_size ->
  partition_array (prefix ++ arr) header lba_size = arr
  /\ read_partitions bo (prefix ++ arr) header lba_size
     = read_partitions_loop bo header arr
         (py_range 1 (1 + num_part_entries header))
  /\ read_partitions bo (prefix ++ arr) header None
     = read_partitions bo (prefix ++ arr) header (Some 50).
Proof.
  intros H.
  assert (Ha : partition_array (prefix ++ arr) header lba_size = arr).
  { unfold partition_array. rewrite <- H.
    rewrite py_drop_nonneg by (unfold len; lia).
    unfold len. rewrite Nat2Z.id, skipn_app, skipn_all, Nat.sub_diag.
    reflexivity. }
  split; [exact Ha|]. split; [|reflexivity].
  rewrite read_partitions_unfold, Ha. reflexivity.
Qed.

Lemma read_partitions_offset_witness :
  len (firstn 100 tpm_event)
  = part_entry_start_lba (header_of tpm_event) * lba_size_or_default None
  /\ partition_array (firstn 100 tpm_event ++ skipn 100 tpm_event)
       (header_of tpm_event) None = skipn 100 tpm_event
  /\ map index (fst (read_partitions little
                       (firstn 100 tpm_event ++ skipn 100 tpm_event)
                       (header_of tpm_event) None)) = [1].
Proof.
  assert (H : len (firstn 100 tpm_event)
              = part_entry_start_lba (header_of tpm_event)
                * lba_size_or_default None) by (vm_compute; reflexivity).
  split; [exact H|].
  destruct (read_partitions_offset little _ (skipn 100 tpm_event) _ _ H)
    as (Ha & Hr & _).
  split; [exact Ha|]. rewrite Hr. vm_compute. reflexivity.
Defined.

(** C9 as stated fails: a call without [lba_size] is not an error; it
    reads the entries of a TPM event at byte 2 * 50 = 100, returns
    normally, and differs from the call with 512-byte sectors. *)
Lemma lba_size_defaults_to_50 :
  read_partitions little tpm_event (header_of tpm_event) None
  = read_partitions little tpm_event (header_of tpm_event) (Some 50)
  /\ snd (read_partitions little tpm_event (header_of tpm_event) None) = Done
  /\ map name (fst (read_partitions little tpm_event (header_of tpm_event) None))
     = [VStr (s_lit "EFI System")]
  /\ read_partitions little tpm_event (header_of tpm_event) None
     <> read_partitions little tpm_event (header_of tpm_event) (Some 512).
Proof.
  split; [reflexivity|]. split; [vm_compute; reflexivity|].
  split; [vm_compute; reflexivity|].
  intros H. vm_compute in H. discriminate.
Qed.

(** C1: the code departs from the claim.  With [num_part_entries = 3],
    one populated slot and two slots whose type is all zero, the claim
    promises exactly one record; [read_partitions] yields three, with the
    indices 1, 2, 3, the unused slots appearing with the all-zero GUID as
    their type. *)
Lemma unused_slots_are_yielded :
  read_header sparse_event = Ok (header_of sparse_event)
  /\ num_part_entries (header_of sparse_event) = 3
  /\ map (fun j => is_empty (filter (fun x => negb (Byte.eqb x x00))
                              (firstn 16 (entry_slice (header_of sparse_event)
                                 (partition_array sparse_event
                                    (header_of sparse_event) (Some 92)) j))))
       [1; 2; 3] = [false; true; true]
  /\ snd (read_partitions little sparse_event (header_of sparse_event)
            (Some 92)) = Done
  /\ map index (fst (read_partitions little sparse_event
                       (header_of sparse_event) (Some 92))) = [1; 2; 3]
  /\ map type (fst (read_partitions little sparse_event
                      (header_of sparse_event) (Some 92)))
     = [VStr (s_lit "c12a7328-f81f-11d2-ba4b-00a0c93ec93b");
        VStr (s_lit "00000000-0000-0000-0000-000000000000");
        VStr (s_lit "00000000-0000-0000-0000-000000000000")].
Proof. repeat split; vm_compute; reflexivity. Qed.

(** C2: the code departs from the claim.  On the worked example (two
    128-byte slots, the first with an all-zero type, the second named
    "EFI System") the claim promises exactly one record, with index 2;
    [read_partitions] yields two: slot 1 with an empty name, then slot 2
    with the name "EFI System". *)
Lemma worked_example_yields_two_records :
  read_header example_event = Ok (header_of example_event)
  /\ header_size (header_of example_event) = 92
  /\ num_part_entries (header_of example_event) = 2
  /\ part_entry_size (header_of example_event) = 128
  /\ firstn 16 (entry_slice (header_of example_event)
                  (partition_array example_event (header_of example_event)
                     (Some 92)) 1) = repeat x00 16
  /\ read_partitions little example_event (header_of example_event) (Some 92)
     = (fst (read_partitions little example_event (header_of example_event)
               (Some 92)), Done)
  /\ map (fun p => (index p, name p))
       (fst (read_partitions little example_event (header_of example_event)
               (Some 92)))
     = [(1, VStr []); (2, VStr (s_lit "EFI System"))].
Proof. repeat split; vm_compute; reflexivity. Qed.

(** ** The header reader: acceptance, errors, ranges *)

Lemma uint_le_range (b : bytes) : in_uint (length b) (uint_le b).
Proof.
  unfold in_uint. induction b as [|x b IH].
  - cbn. lia.
  - cbn [uint_le length]. rewrite Nat2Z.inj_succ, Z.pow_succ_r by lia.
    pose proof (byte_to_N_lt x). lia.
Qed.

Lemma int_str_inj (z1 z2 : Z) : int_str z1 = int_str z2 -> z1 = z2.
Proof.
  unfold int_str. intros H.
  assert (Hn : forall z, Z.to_int z <> Decimal.Pos Decimal.Nil
                         /\ Z.to_int z <> Decimal.Neg Decimal.Nil).
  { intros [|p|p]; cbn; split; try discriminate;
      intros E; injection E as E;
      apply (DecimalPos.Unsigned.to_uint_nonnil p); exact E. }
  assert (E : Some (Z.to_int z1) = Some (Z.to_int z2)).
  { rewrite <- (NilZero.isi (Z.to_int z1)) by apply Hn.
    rewrite <- (NilZero.isi (Z.to_int z2)) by apply Hn.
    now rewrite H. }
  injection E as E.
  rewrite <- (DecimalZ.of_to z1), <- (DecimalZ.of_to z2). now rewrite E.
Qed.

Lemma uuid_text_guid_text (b : bytes) :
  length b = 16%nat -> uuid_text (VBytes b) = Ok (VStr (guid_text b)).
Proof.
  intros H. cbn [uuid_text]. rewrite UUID_bytes_le_ok by assumption.
  cbn [bind]. unfold guid_text.
  rewrite UUID_str_from_bytes by (apply swap_fields_length; assumption).
  reflexivity.
Qed.

Lemma guid_text_inj (b1 b2 : bytes) :
  length b1 = 16%nat -> length b2 = 16%nat ->
  guid_text b1 = guid_text b2 -> b1 = b2.
Proof.
  intros H1 H2 E.
  pose proof (guid_round_trip b1 _ (UUID_bytes_le_ok b1 H1)) as G1.
  pose proof (guid_round_trip b2 _ (UUID_bytes_le_ok b2 H2)) as G2.
  rewrite UUID_str_from_bytes in G1 by (apply swap_fields_length; assumption).
  rewrite UUID_str_from_bytes in G2 by (apply swap_fields_length; assumption).
  fold (guid_text b1) in G1. fold (guid_text b2) in G2.
  rewrite E in G1. congruence.
Qed.

(** The result of [read_header] on a buffer that holds the 92 bytes, with
    the GUID written as [guid_text]. *)
Lemma read_header_cases (event : bytes) :
  (92 <= length event)%nat ->
  read_header event =
  if negb (bytes_eqb (slice 0 8 event) (b_lit "EFI PART"))
  then Raise (GPTError ("Bad signature: " ++ bytes_repr (slice 0 8 event)))
  else if negb (bytes_eqb (slice 8 12 event) [x00; x00; x01; x00])
  then Raise (GPTError ("Bad revision: " ++ bytes_repr (slice 8 12 event)))
  else if uint_le (slice 12 16 event) <? 92
  then Raise (GPTError ("Bad header size: "
                        ++ int_str (uint_le (slice 12 16 event))))
  else Ok (replace_disk_guid (header_at event)
             (VStr (guid_text (slice 56 72 event)))).
Proof.
  intros H. rewrite read_header_full by assumption. cbv zeta.
  cbn [header_at signature revision header_size disk_guid].
  rewrite uuid_text_guid_text by (rewrite slice_length by lia; reflexivity).
  reflexivity.
Qed.

(** X1.  [read_header] accepts a buffer exactly when it holds at least 92
    bytes, starts with the signature [EFI PART], has the revision bytes
    00 00 01 00 and a header size field of at least 92; nothing else (the
    checksums, the LBA fields, the entry count and size) is examined. *)
Theorem read_header_accepts (event : bytes) :
  (exists h, read_header event = Ok h) <->
  (92 <= length event)%nat
  /\ slice 0 8 event = b_lit "EFI PART"
  /\ slice 8 12 event = [x00; x00; x01; x00]
  /\ 92 <= uint_le (slice 12 16 event).
Proof.
  split.
  - intros (h & H). apply read_header_ok in H.
    destruct H as (H1 & H2 & H3 & H4 & _). auto.
  - intros (H1 & H2 & H3 & H4). rewrite read_header_cases by assumption.
    rewrite H2, H3.
    replace (bytes_eqb (b_lit "EFI PART") (b_lit "EFI PART")) with true
      by reflexivity.
    replace (bytes_eqb [x00; x00; x01; x00] [x00; x00; x01; x00]) with true
      by reflexivity.
    cbn [negb].
    destruct (Z.ltb_spec (uint_le (slice 12 16 event)) 92); [lia|].
    eexists. reflexivity.
Qed.

Lemma read_header_accepts_witness :
  exists h, read_header tpm_event = Ok h.
Proof.
  apply (proj2 (read_header_accepts tpm_event)).
  split; [vm_compute; lia|]. split; [reflexivity|]. split; [reflexivity|].
  vm_compute. discriminate.
Defined.

(** X2.  With the signature in place and other revision bytes,
    [read_header] raises [GPTError] with the message "Bad revision: "
    followed by the [repr] of bytes 8..12; the revision is checked before
    the header size, whatever that field holds. *)
Theorem read_header_bad_revision (event : bytes) :
  (92 <= length event)%nat ->
  slice 0 8 event = b_lit "EFI PART" ->
  slice 8 12 event <> [x00; x00; x01; x00] ->
  read_header event
  = Raise (GPTError ("Bad revision: " ++ bytes_repr (slice 8 12 event))).
Proof.
  intros H Hs Hr. rewrite read_header_cases by assumption.
  rewrite Hs.
  replace (bytes_eqb (b_lit "EFI PART") (b_lit "EFI PART")) with true
    by reflexivity.
  rewrite (bytes_eqb_neq _ _ Hr). reflexivity.
Qed.

(** X3.  With signature and revision in place and a header size field
    below 92, [read_header] raises [GPTError] with the message
    "Bad header size: " followed by the field in decimal, and the decimal
    text determines the field. *)
Theorem read_header_bad_header_size (event : bytes) :
  (92 <= length event)%nat ->
  slice 0 8 event = b_lit "EFI PART" ->
  slice 8 12 event = [x00; x00; x01; x00] ->
  uint_le (slice 12 16 event) < 92 ->
  read_header event
  = Raise (GPTError ("Bad header size: "
                     ++ int_str (uint_le (slice 12 16 event))))
  /\ forall z, int_str z = int_str (uint_le (slice 12 16 event)) ->
               z = uint_le (slice 12 16 event).
Proof.
  intros H Hs Hr Hz. split; [|intros z; apply int_str_inj].
  rewrite read_header_cases by assumption. rewrite Hs, Hr.
  replace (bytes_eqb (b_lit "EFI PART") (b_lit "EFI PART")) with true
    by reflexivity.
  replace (bytes_eqb [x00; x00; x01; x00] [x00; x00; x01; x00]) with true
    by reflexivity.
  cbn [negb].
  destruct (Z.ltb_spec (uint_le (slice 12 16 event)) 92); [reflexivity|lia].
Qed.

(** X4.  The only exceptions [read_header] raises are [struct.error], on
    exactly the buffers shorter than 92 bytes, and [GPTError] with one of
    its three messages, on buffers that hold the 92 bytes; building the
    GUID text never fails. *)
Theorem read_header_errors (event : bytes) (e : exn) :
  read_header event = Raise e ->
  (e = struct_error /\ (length event < 92)%nat)
  \/ ((92 <= length event)%nat
      /\ (e = GPTError ("Bad signature: " ++ bytes_repr (slice 0 8 event))
          \/ e = GPTError ("Bad revision: " ++ bytes_repr (slice 8 12 event))
          \/ e = GPTError ("Bad header size: "
                           ++ int_str (uint_le (slice 12 16 event))))).
Proof.
  intros H. destruct (Nat.lt_ge_cases (length event) 92) as [Hl | Hl].
  - left. rewrite read_header_short in H by assumption.
    split; [congruence | assumption].
  - right. split; [assumption|].
    rewrite read_header_cases in H by assumption.
    destruct (negb (bytes_eqb (slice 0 8 event) _)); [left; congruence|].
    destruct (negb (bytes_eqb (slice 8 12 event) _));
      [right; left; congruence|].
    destruct (uint_le (slice 12 16 event) <? 92);
      [right; right; congruence | discriminate].
Qed.

Lemma read_header_errors_witness :
  read_header (b_lit "EFI PART" ++ repeat x00 84)
  = Raise (GPTError "Bad revision: b'\x00\x00\x00\x00'")
  /\ (92 <= length (b_lit "EFI PART" ++ repeat x00 84))%nat.
Proof.
  split; [reflexivity|].
  destruct (read_header_errors (b_lit "EFI PART" ++ repeat x00 84) _ eq_refl)
    as [[H _] | [H _]]; [discriminate H | exact H].
Defined.

Lemma read_header_bad_revision_witness :
  read_header (b_lit "EFI PART" ++ [x00; x00; x02; x00] ++ repeat x00 80)
  = Raise (GPTError "Bad revision: b'\x00\x00\x02\x00'").
Proof.
  apply (read_header_bad_revision
           (b_lit "EFI PART" ++ [x00; x00; x02; x00] ++ repeat x00 80)).
  - vm_compute. lia.
  - reflexivity.
  - discriminate.
Defined.

Lemma read_header_bad_header_size_witness :
  read_header (b_lit "EFI PART" ++ [x00; x00; x01; x00] ++ [x5b; x00; x00; x00]
               ++ repeat x00 76)
  = Raise (GPTError "Bad header size: 91").
Proof.
  apply (read_header_bad_header_size
           (b_lit "EFI PART" ++ [x00; x00; x01; x00] ++ [x5b; x00; x00; x00]
            ++ repeat x00 76)).
  - vm_compute. lia.
  - reflexivity.
  - reflexivity.
  - vm_compute. reflexivity.
Defined.

(** X5.  Every integer field of a header that [read_header] returns lies
    in the unsigned range of its width: 32 bits for the header size, the
    checksums, the entry count and the entry size, 64 bits for the LBA
    fields; signature and revision hold 8 and 4 bytes. *)
Theorem read_header_field_ranges (event : bytes) (h : GPTHeader) :
  read_header event = Ok h ->
  length (signature h) = 8%nat /\ length (revision h) = 4%nat
  /\ in_uint 4 (header_size h) /\ in_uint 4 (crc32 h)
  /\ in_uint 8 (current_lba h) /\ in_uint 8 (backup_lba h)
  /\ in_uint 8 (first_usable_lba h) /\ in_uint 8 (last_usable_lba h)
  /\ in_uint 8 (part_entry_start_lba h) /\ in_uint 4 (num_part_entries h)
  /\ in_uint 4 (part_entry_size h) /\ in_uint 4 (crc32_part_array h).
Proof.
  intros H. apply read_header_ok in H.
  destruct H as (Hl & _ & _ & _ & i & _ & ->).
  cbn [replace_disk_guid header_at signature revision header_size crc32
       current_lba backup_lba first_usable_lba last_usable_lba
       part_entry_start_lba num_part_entries part_entry_size
       crc32_part_array].
  assert (R : forall a b w, (b <= 92)%nat -> (b - a)%nat = w ->
                            in_uint w (uint_le (slice a b event))).
  { intros a b w Hb <-. rewrite <- (slice_length a b event) by lia.
    apply uint_le_range. }
  repeat match goal with |- _ /\ _ => split end;
    try (apply R; [lia | reflexivity]);
    rewrite slice_length by lia; reflexivity.
Qed.

Lemma read_header_field_ranges_witness :
  in_uint 8 (part_entry_start_lba (header_of tpm_event))
  /\ in_uint 4 (num_part_entries (header_of tpm_event)).
Proof.
  pose proof (read_header_field_ranges tpm_event (header_of tpm_event)
                eq_refl) as H.
  split; apply H.
Defined.

(** X6.  The disk GUID of a returned header is the text of bytes 56..72
    of the buffer in the mixed byte order of a GUID (the first three
    fields reversed, two lower-case digits per byte, groups of 8, 4, 4, 4
    and 12 digits), and two returned headers show the same text only if
    these 16 bytes are the same. *)
Theorem read_header_disk_guid (event : bytes) (h : GPTHeader) :
  read_header event = Ok h ->
  disk_guid h = VStr (guid_text (slice 56 72 event))
  /\ forall event' h',
       read_header event' = Ok h' -> disk_guid h' = disk_guid h ->
       slice 56 72 event' = slice 56 72 event.
Proof.
  assert (G : forall ev hd, read_header ev = Ok hd ->
                (92 <= length ev)%nat
                /\ disk_guid hd = VStr (guid_text (slice 56 72 ev))).
  { intros ev hd H. pose proof H as H'. apply read_header_ok in H'.
    destruct H' as (Hl & Hs & Hr & Hz & _). split; [assumption|].
    rewrite read_header_cases in H by assumption.
    rewrite Hs, Hr in H.
    replace (bytes_eqb (b_lit "EFI PART") (b_lit "EFI PART")) with true in H
      by reflexivity.
    replace (bytes_eqb [x00; x00; x01; x00] [x00; x00; x01; x00]) with true
      in H by reflexivity.
    cbn [negb] in H.
    destruct (Z.ltb_spec (uint_le (slice 12 16 ev)) 92); [lia|].
    injection H as <-. reflexivity. }
  intros H. destruct (G _ _ H) as (Hl & Hg). split; [assumption|].
  intros event' h' H' E. destruct (G _ _ H') as (Hl' & Hg').
  rewrite Hg, Hg' in E. injection E as E.
  apply guid_text_inj; [| | assumption]; rewrite slice_length by lia;
    reflexivity.
Qed.

Lemma read_header_disk_guid_witness :
  disk_guid (header_of tpm_event)
  = VStr (s_lit "04030201-0605-0807-090a-0b0c0d0e0f10")
  /\ slice 56 72 tpm_event = sample_guid.
Proof.
  split; [|reflexivity].
  rewrite (proj1 (read_header_disk_guid tpm_event (header_of tpm_event)
                    eq_refl)).
  reflexivity.
Defined.

(** ** The [utf-16] codec: what it raises, how long its result is *)

Lemma list_pairs_ind {A} (P : list A -> Prop) :
  P [] -> (forall x, P [x]) -> (forall x y l, P l -> P (x :: y :: l)) ->
  forall l, P l.
Proof.
  intros H0 H1 H2. fix IH 1. intros [|x [|y l]].
  - exact H0.
  - apply H1.
  - apply H2, IH.
Qed.

Lemma code_units_spec (bo : byteorder) (b : bytes) :
  match code_units bo b with
  | Ok us => length b = (2 * length us)%nat
  | Raise e => e = UnicodeDecodeError
  end.
Proof.
  induction b as [|x|x y b IH] using list_pairs_ind; cbn [code_units].
  - reflexivity.
  - reflexivity.
  - destruct (code_units bo b) as [us|e]; cbn [bind length]; [lia | assumption].
Qed.

Lemma code_points_spec (us : list N) :
  match code_points us with
  | Ok s => (length s <= length us)%nat
  | Raise e => e = UnicodeDecodeError
  end.
Proof.
  remember (length us) as n eqn:Hn. revert us Hn.
  induction n as [n IH] using lt_wf_ind. intros us Hn.
  destruct us as [|u rest]; [cbn; lia|].
  cbn [code_points].
  destruct ((u <? 55296)%N || (57343 <? u)%N).
  - specialize (IH (length rest) ltac:(cbn in Hn; lia) rest eq_refl).
    destruct (code_points rest); cbn [bind length] in *; [lia | assumption].
  - destruct (u <? 56320)%N; [|reflexivity].
    destruct rest as [|lo rest']; [reflexivity|].
    destruct ((56320 <=? lo)%N && (lo <=? 57343)%N); [|reflexivity].
    specialize (IH (length rest') ltac:(cbn in Hn; lia) rest' eq_refl).
    destruct (code_points rest'); cbn [bind length] in *; [lia | assumption].
Qed.

Lemma decode_units_spec (bo : byteorder) (b : bytes) :
  match (us <- code_units bo b ;; code_points us) with
  | Ok s => (2 * length s <= length b)%nat
  | Raise e => e = UnicodeDecodeError
  end.
Proof.
  pose proof (code_units_spec bo b) as Hu.
  destruct (code_units bo b) as [us|e]; cbn [bind]; [|assumption].
  pose proof (code_points_spec us) as Hp.
  destruct (code_points us); [lia | assumption].
Qed.

(** The three ways [decode_utf_16] reads its argument. *)
Lemma decode_utf_16_cases (bo : byteorder) (b : bytes) :
  (exists b', b = xff :: xfe :: b'
              /\ decode_utf_16 bo b
                 = (us <- code_units little b' ;; code_points us))
  \/ (exists b', b = xfe :: xff :: b'
                 /\ decode_utf_16 bo b
                    = (us <- code_units big b' ;; code_points us))
  \/ decode_utf_16 bo b = (us <- code_units bo b ;; code_points us).
Proof.
  destruct b as [|x b]; [right; right; reflexivity|].
  destruct x; try (right; right; reflexivity).
  - destruct b as [|y b']; [right; right; reflexivity|].
    destruct y; try (right; right; reflexivity).
    right; left. eexists. split; reflexivity.
  - destruct b as [|y b']; [right; right; reflexivity|].
    destruct y; try (right; right; reflexivity).
    left. eexists. split; reflexivity.
Qed.

Lemma decode_utf_16_spec (bo : byteorder) (b : bytes) :
  match decode_utf_16 bo b with
  | Ok s => (2 * length s <= length b)%nat
  | Raise e => e = UnicodeDecodeError
  end.
Proof.
  destruct (decode_utf_16_cases bo b) as [(b' & -> & E) | [(b' & -> & E) | E]];
    rewrite E.
  - pose proof (decode_units_spec little b') as H.
    destruct (_ <- _ ;; _); cbn [length]; [lia | assumption].
  - pose proof (decode_units_spec big b') as H.
    destruct (_ <- _ ;; _); cbn [length]; [lia | assumption].
  - apply decode_units_spec.
Qed.

Lemma before_nul_spec (s : str) :
  (length (before_nul s) <= length s)%nat
  /\ Forall (fun c => c <> 0%N) (before_nul s).
Proof.
  induction s as [|c s [IH1 IH2]]; [split; [apply le_n | constructor]|].
  cbn [before_nul]. destruct (N.eqb_spec c 0).
  - split; [cbn; lia | constructor].
  - split; [cbn [length]; lia | constructor; assumption].
Qed.

Lemma entry_name_spec (bo : byteorder) (data : bytes) :
  length data = 128%nat ->
  (length (entry_name bo data) <= 36)%nat
  /\ Forall (fun c => c <> 0%N) (entry_name bo data).
Proof.
  intros H. unfold entry_name.
  pose proof (decode_utf_16_spec bo (slice 56 128 data)) as D.
  rewrite slice_length in D by lia.
  destruct (decode_utf_16 bo (slice 56 128 data)) as [s|e].
  - destruct (before_nul_spec s). split; [lia | assumption].
  - split; [cbn; lia | constructor].
Qed.

Lemma guid_text_canonical (b : bytes) :
  length b = 16%nat -> is_canonical_guid (guid_text b) = true.
Proof.
  intros H. unfold guid_text.
  rewrite <- UUID_str_from_bytes by (apply swap_fields_length; assumption).
  apply (UUID_str_canonical b). apply UUID_bytes_le_ok. assumption.
Qed.

(** ** One pass through the loop body, by the length of the slice *)

Lemma read_entry_128 (bo : byteorder) (i : Z) (data : bytes) :
  length data = 128%nat ->
  read_entry bo i data =
  if name_decodes bo data then EntryYield (entry_record bo data i)
  else EntryError UnicodeDecodeError.
Proof.
  intros H. destruct (read_entry_complete bo i data H) as (ty & un & H1 & H2 & E).
  rewrite uuid_text_guid_text in H1, H2
    by (rewrite slice_length by lia; reflexivity).
  injection H1 as <-. injection H2 as <-. rewrite E.
  unfold name_decodes, entry_record, entry_name. cbn [decode_name].
  pose proof (decode_utf_16_spec bo (slice 56 128 data)) as D.
  destruct (decode_utf_16 bo (slice 56 128 data)) as [s|e]; cbn [bind].
  - reflexivity.
  - rewrite D. reflexivity.
Qed.

Lemma read_entry_long (bo : byteorder) (i : Z) (data : bytes) :
  (128 < length data)%nat -> read_entry bo i data = EntryError struct_error.
Proof.
  intros H. unfold read_entry.
  rewrite unpack_partition_long by assumption.
  destruct (Z.ltb_spec (len data) (Z.of_nat (calcsize GPT_PART_FMT)))
    as [Hlt|_]; [rewrite calcsize_partition in Hlt; unfold len in Hlt; lia|].
  destruct data as [|x data']; [cbn in H; lia | reflexivity].
Qed.

(** The four cases together. *)
Lemma read_entry_by_length (bo : byteorder) (i : Z) (data : bytes) :
  (data = [] /\ read_entry bo i data = EntryEnd)
  \/ ((0 < length data < 128)%nat
      /\ read_entry bo i data = EntryError short_partition_entry)
  \/ (length data = 128%nat
      /\ read_entry bo i data =
         if name_decodes bo data then EntryYield (entry_record bo data i)
         else EntryError UnicodeDecodeError)
  \/ ((128 < length data)%nat
      /\ read_entry bo i data = EntryError struct_error).
Proof.
  destruct (list_eq_dec Byte.byte_eq_dec data []) as [E | Hne];
    [left; split; [assumption | rewrite E; reflexivity]|].
  assert (Hpos : (0 < length data)%nat)
    by (destruct data; [congruence | cbn; lia]).
  destruct (Nat.lt_trichotomy (length data) 128) as [Hl | [Hl | Hl]].
  - right; left. split; [lia|]. apply read_entry_short; [assumption|].
    unfold len. lia.
  - right; right; left. split; [assumption|]. now apply read_entry_128.
  - right; right; right. split; [assumption|]. now apply read_entry_long.
Qed.

Lemma read_entry_yield_inv (bo : byteorder) (i : Z) (data : bytes)
    (p : GPTPartition) :
  read_entry bo i data = EntryYield p ->
  length data = 128%nat /\ name_decodes bo data = true
  /\ p = entry_record bo data i.
Proof.
  intros H.
  destruct (read_entry_by_length bo i data)
    as [(_ & E) | [(_ & E) | [(Hl & E) | (_ & E)]]];
    rewrite E in H; try discriminate.
  destruct (name_decodes bo data); [|discriminate].
  injection H as <-. auto.
Qed.

Lemma read_entry_error_inv (bo : byteorder) (i : Z) (data : bytes) (e : exn) :
  read_entry bo i data = EntryError e ->
  (e = short_partition_entry /\ (0 < length data < 128)%nat)
  \/ (e = UnicodeDecodeError /\ length data = 128%nat)
  \/ (e = struct_error /\ (128 < length data)%nat).
Proof.
  intros H.
  destruct (read_entry_by_length bo i data)
    as [(_ & E) | [(Hl & E) | [(Hl & E) | (Hl & E)]]];
    rewrite E in H; try discriminate.
  - left. split; [congruence | assumption].
  - right; left. destruct (name_decodes bo data); [discriminate|].
    split; [congruence | assumption].
  - right; right. split; [congruence | assumption].
Qed.

(** ** The loop over a well-formed array *)

Lemma py_take_app_exact {A} (l1 l2 : list A) :
  py_take (len l1) (l1 ++ l2) = l1.
Proof.
  unfold len. rewrite py_take_nonneg by lia. rewrite Nat2Z.id.
  rewrite firstn_app, Nat.sub_diag, firstn_all. cbn. apply app_nil_r.
Qed.

Lemma py_drop_app_exact {A} (l1 l2 : list A) :
  py_drop (len l1) (l1 ++ l2) = l2.
Proof.
  unfold len. rewrite py_drop_nonneg by lia. rewrite Nat2Z.id.
  rewrite skipn_app, Nat.sub_diag, skipn_all. reflexivity.
Qed.

Lemma loop_entries (bo : byteorder) (h : GPTHeader) (entries : list bytes) :
  part_entry_size h = 128 ->
  Forall (fun e => length e = 128%nat /\ name_decodes bo e = true) entries ->
  forall (i : Z) (extra : bytes),
    read_partitions_loop bo h (concat entries ++ extra)
      (py_range i (i + len entries))
    = (entry_records bo i entries, Done)
    /\ rest_after h (length entries) (concat entries ++ extra) = extra.
Proof.
  intros Hs. induction entries as [|e entries IH]; intros HF i extra.
  - unfold len. cbn [length Z.of_nat]. rewrite Z.add_0_r.
    unfold py_range. rewrite Z.sub_diag. split; reflexivity.
  - apply Forall_cons_iff in HF. destruct HF as ((Hl & Hn) & HF).
    assert (E128 : len e = 128) by (unfold len; lia).
    assert (Elen : len (e :: entries) = 1 + len entries)
      by (unfold len; cbn [length]; lia).
    assert (Hpos : 0 <= len entries) by (unfold len; lia).
    destruct (IH HF (i + 1) extra) as (IH1 & IH2).
    cbn [concat length rest_after]. rewrite <- app_assoc. split.
    + rewrite py_range_cons by lia.
      rewrite loop_cons, Hs, <- E128.
      rewrite py_take_app_exact, py_drop_app_exact.
      rewrite read_entry_128, Hn by assumption.
      rewrite Elen, Z.add_assoc, IH1. reflexivity.
    + rewrite Hs, <- E128, py_drop_app_exact. exact IH2.
Qed.

Lemma entry_records_length (bo : byteorder) (i : Z) (entries : list bytes) :
  length (entry_records bo i entries) = length entries.
Proof.
  revert i. induction entries as [|e entries IH]; intros i; [reflexivity|].
  cbn [entry_records length]. now rewrite IH.
Qed.

Lemma entry_records_nth (bo : byteorder) (entries : list bytes) :
  forall (i : Z) (j : nat) (e : bytes),
    nth_error entries j = Some e ->
    nth_error (entry_records bo i entries) j
    = Some (entry_record bo e (i + Z.of_nat j)).
Proof.
  induction entries as [|e0 entries IH]; intros i j e H.
  - destruct j; discriminate.
  - destruct j as [|j]; cbn [nth_error entry_records] in *.
    + injection H as <-. now rewrite Z.add_0_r.
    + rewrite (IH (i + 1) j e H). f_equal. f_equal. lia.
Qed.

(** ** A short slot after complete ones *)




(** ** [read_partitions]: what is yielded, and how it ends *)

Lemma firstn_seq (k s n : nat) : firstn k (seq s n) = seq s (Nat.min k n).
Proof.
  revert s n. induction k as [|k IH]; intros s [|n]; try reflexivity.
  cbn [seq firstn Nat.min]. now rewrite IH.
Qed.

Lemma firstn_py_range (a : Z) (n k : nat) :
  (k <= n)%nat ->
  firstn k (py_range a (a + Z.of_nat n)) = py_range a (a + Z.of_nat k).
Proof.
  intros H. unfold py_range. rewrite firstn_map, firstn_seq.
  replace (a + Z.of_nat n - a) with (Z.of_nat n) by lia.
  replace (a + Z.of_nat k - a) with (Z.of_nat k) by lia.
  rewrite !Nat2Z.id. now rewrite Nat.min_l by lia.
Qed.

(** No slot is skipped, so the records carry the first indices visited. *)
Lemma loop_indices_firstn (bo : byteorder) (h : GPTHeader) (idxs : list Z)
    (event : bytes) :
  map index (fst (read_partitions_loop bo h event idxs))
  = firstn (length (fst (read_partitions_loop bo h event idxs))) idxs.
Proof.
  revert event. induction idxs as [|i idxs IH]; intros event; [reflexivity|].
  rewrite loop_cons. destruct (read_entry _ _ _) eqn:E.
  - reflexivity.
  - reflexivity.
  - exfalso. exact (read_entry_never_skips _ _ _ E).
  - cbn [yield fst map length firstn]. f_equal.
    + exact (read_entry_index _ _ _ _ E).
    + apply IH.
Qed.

(** X7.  The records [read_partitions] yields carry the indices 1, 2, ...
    without a gap: the k-th record has index k, whatever the slots hold,
    because no slot is passed over. *)
Theorem read_partitions_indices (bo : byteorder) (event : bytes)
    (header : GPTHeader) (lba_size : option Z) :
  map index (fst (read_partitions bo event header lba_size))
  = py_range 1 (1 + len (fst (read_partitions bo event header lba_size))).
Proof.
  rewrite read_partitions_unfold.
  set (arr := partition_array event header lba_size).
  rewrite loop_indices_firstn.
  pose proof (loop_length bo header
                (py_range 1 (1 + num_part_entries header)) arr) as Hl.
  rewrite py_range_length in Hl. unfold len.
  remember (length (fst (read_partitions_loop bo header arr
                           (py_range 1 (1 + num_part_entries header)))))
    as k eqn:Hk.
  clear Hk. remember (num_part_entries header) as N eqn:HN. clear HN.
  replace (1 + N - 1) with N in Hl by lia.
  destruct (Z.le_gt_cases 0 N) as [Hn | Hn].
  - rewrite <- (Z2Nat.id N) by assumption.
    apply firstn_py_range. assumption.
  - assert (k = 0%nat) as -> by lia. reflexivity.
Qed.

(** The loop over an array of complete entries whose names decode. *)
Lemma loop_complete_entries (bo : byteorder) (h : GPTHeader)
    (entries : list bytes) (extra : bytes) :
  part_entry_size h = 128 ->
  Forall (fun e => length e = 128%nat /\ name_decodes bo e = true) entries ->
  len entries <= num_part_entries h ->
  (len entries < num_part_entries h -> extra = []) ->
  read_partitions_loop bo h (concat entries ++ extra)
    (py_range 1 (1 + num_part_entries h))
  = (entry_records bo 1 entries, Done).
Proof.
  intros Hs HF Hle Hextra.
  assert (Hpos : 0 <= len entries) by (unfold len; lia).
  rewrite (py_range_app 1 (1 + len entries) (1 + num_part_entries h)) by lia.
  rewrite loop_app.
  destruct (loop_entries bo h entries Hs HF 1 extra) as (E1 & E2).
  rewrite E1. rewrite py_range_length.
  replace (Z.to_nat (1 + len entries - 1)) with (length entries)
    by (unfold len; lia).
  rewrite E2. cbv zeta.
  assert (R : read_partitions_loop bo h extra
                (py_range (1 + len entries) (1 + num_part_entries h))
              = ([], Done)).
  { destruct (Z.eq_dec (len entries) (num_part_entries h)) as [E | N].
    - rewrite E. unfold py_range. rewrite Z.sub_diag. reflexivity.
    - rewrite Hextra by lia. apply loop_empty_slice.
      unfold py_take. apply firstn_nil. }
  rewrite R. cbn [fst snd]. now rewrite app_nil_r.
Qed.

(** X8.  Over an array of complete 128-byte entries whose names decode,
    with no more entries than the header counts and nothing after them when
    there are fewer, [read_partitions] yields one record per entry, in
    order and numbered from 1, and then returns: the GUIDs as text, the
    three integers read little-endian from bytes 32..56, and the name cut
    at its first NUL. *)
Theorem read_partitions_complete_entries (bo : byteorder) (event : bytes)
    (header : GPTHeader) (lba_size : option Z) (entries : list bytes)
    (extra : bytes) :
  part_entry_size header = 128 ->
  Forall (fun e => length e = 128%nat /\ name_decodes bo e = true) entries ->
  partition_array event header lba_size = concat entries ++ extra ->
  len entries <= num_part_entries header ->
  (len entries < num_part_entries header -> extra = []) ->
  read_partitions bo event header lba_size
  = (entry_records bo 1 entries, Done).
Proof.
  intros Hs HF Harr Hle Hextra.
  unfold read_partitions.
  change (py_drop (part_entry_start_lba header
                   * match lba_size with Some n => n | None => 50 end) event)
    with (partition_array event header lba_size).
  rewrite Harr. now apply loop_complete_entries.
Qed.

(** X9.  In such an array an entry whose type field is all zero is
    yielded like any other, with the nil GUID as its type and its slot as
    its index: an unused slot is not left out. *)
Theorem read_partitions_yields_unused_slots (bo : byteorder) (event : bytes)
    (header : GPTHeader) (lba_size : option Z) (entries : list bytes)
    (extra : bytes) (j : nat) (e : bytes) :
  part_entry_size header = 128 ->
  Forall (fun e => length e = 128%nat /\ name_decodes bo e = true) entries ->
  partition_array event header lba_size = concat entries ++ extra ->
  len entries <= num_part_entries header ->
  (len entries < num_part_entries header -> extra = []) ->
  nth_error entries j = Some e ->
  slice 0 16 e = repeat x00 16 ->
  exists p,
    nth_error (fst (read_partitions bo event header lba_size)) j = Some p
    /\ type p = VStr nil_guid
    /\ index p = Z.of_nat j + 1.
Proof.
  intros Hs HF Harr Hle Hextra Hj Hz.
  rewrite read_partitions_unfold, Harr.
  rewrite loop_complete_entries by assumption.
  cbn [fst]. rewrite (entry_records_nth bo entries 1 j e Hj).
  eexists. split; [reflexivity|]. cbn [entry_record type index].
  rewrite Hz. split; [reflexivity | lia].
Qed.

Lemma py_take_length_le {A} (n : Z) (l : list A) :
  0 <= n -> (length (py_take n l) <= Z.to_nat n)%nat.
Proof.
  intros H. rewrite py_take_nonneg by assumption. rewrite length_firstn. lia.
Qed.

(** X10.  When the header counts at least one entry, gives an entry
    size above 128, and the array holds more than 128 bytes, the first
    slice is longer than the entry layout and [read_partitions] raises
    [struct.error] before it yields anything. *)
Theorem read_partitions_oversize_entry (bo : byteorder) (event : bytes)
    (header : GPTHeader) (lba_size : option Z) :
  1 <= num_part_entries header ->
  128 < part_entry_size header ->
  128 < len (partition_array event header lba_size) ->
  read_partitions bo event header lba_size = ([], Raised struct_error).
Proof.
  intros Hn Hs Hl. rewrite read_partitions_unfold.
  rewrite py_range_cons by lia. rewrite loop_cons.
  rewrite read_entry_long; [reflexivity|].
  rewrite py_take_nonneg by lia. rewrite length_firstn.
  unfold len in Hl. lia.
Qed.

(** X11.  [read_partitions] yields nothing and returns without an error
    when the header counts no entries, when its entry size is 0, or when
    the computed offset lies at or beyond the end of the buffer. *)
Theorem read_partitions_nothing_to_read (bo : byteorder) (event : bytes)
    (header : GPTHeader) (lba_size : option Z) :
  num_part_entries header <= 0
  \/ part_entry_size header = 0
  \/ len event
     <= part_entry_start_lba header * lba_size_or_default lba_size ->
  read_partitions bo event header lba_size = ([], Done).
Proof.
  intros [H | [H | H]]; rewrite read_partitions_unfold.
  - unfold py_range.
    replace (Z.to_nat (1 + num_part_entries header - 1)) with 0%nat by lia.
    reflexivity.
  - apply loop_empty_slice. rewrite H. reflexivity.
  - apply loop_empty_slice. unfold partition_array.
    assert (0 <= len event) by (unfold len; lia).
    rewrite py_drop_nonneg by lia.
    rewrite skipn_all2 by (unfold len in H; lia).
    unfold py_take. apply firstn_nil.
Qed.

(** X12.  Raising the entry count of the header only extends the output:
    the records yielded for a count [n] are the first records yielded for
    any count [n' >= n], and a run that raised for [n] is the same for
    [n']. *)
Theorem read_partitions_count_monotone (bo : byteorder) (event : bytes)
    (header : GPTHeader) (lba_size : option Z) (n n' : Z) :
  n <= n' ->
  is_prefix
    (fst (read_partitions bo event (with_num_part_entries header n) lba_size))
    (fst (read_partitions bo event (with_num_part_entries header n') lba_size))
  /\ forall e,
       snd (read_partitions bo event (with_num_part_entries header n) lba_size)
       = Raised e ->
       read_partitions bo event (with_num_part_entries header n') lba_size
       = read_partitions bo event (with_num_part_entries header n) lba_size.
Proof.
  intros H. rewrite !read_partitions_first.
  set (arr := partition_array event header lba_size).
  destruct (Z.le_gt_cases 0 n) as [Hn | Hn].
  - rewrite (py_range_app 1 (1 + n) (1 + n')) by lia. rewrite loop_app.
    destruct (read_partitions_loop bo header arr (py_range 1 (1 + n)))
      as (ys, [|e0]); cbn [fst snd].
    + split; [eexists; reflexivity | discriminate].
    + split; [exists []; now rewrite app_nil_r | reflexivity].
  - assert (E : py_range 1 (1 + n) = []).
    { unfold py_range. replace (Z.to_nat (1 + n - 1)) with 0%nat by lia.
      reflexivity. }
    rewrite E. cbn [read_partitions_loop fst snd].
    split; [eexists; reflexivity | discriminate].
Qed.

Lemma loop_errors (bo : byteorder) (h : GPTHeader) (idxs : list Z)
    (event : bytes) (e : exn) :
  snd (read_partitions_loop bo h event idxs) = Raised e ->
  e = GPTError "Short partition entry" \/ e = UnicodeDecodeError
  \/ (e = struct_error /\ ~ 0 <= part_entry_size h <= 128).
Proof.
  revert event. induction idxs as [|i idxs IH]; intros event; [discriminate|].
  rewrite loop_cons. destruct (read_entry _ _ _) eqn:E; cbn [snd yield].
  - discriminate.
  - intros H. injection H as <-.
    apply read_entry_error_inv in E.
    destruct E as [(-> & _) | [(-> & _) | (-> & Hl)]]; auto.
    right; right. split; [reflexivity|]. intros Hs.
    pose proof (py_take_length_le (part_entry_size h) event (proj1 Hs)). lia.
  - apply IH.
  - apply IH.
Qed.

(** X13.  An exception that leaves [read_partitions] is of one of three
    classes: [GPTError], with the message "Short partition entry",
    [UnicodeDecodeError], from a name that is not UTF-16, or
    [struct.error], the last only when the entry size of the header lies
    outside 0..128. *)
Theorem read_partitions_errors (bo : byteorder) (event : bytes)
    (header : GPTHeader) (lba_size : option Z) (e : exn) :
  snd (read_partitions bo event header lba_size) = Raised e ->
  e = GPTError "Short partition entry" \/ e = UnicodeDecodeError
  \/ (e = struct_error /\ ~ 0 <= part_entry_size header <= 128).
Proof.
  intros H. rewrite read_partitions_unfold in H.
  destruct (loop_errors bo header _ _ e H) as [E | [E | (E & Hs)]].
  - now left.
  - now right; left.
  - right; right. now split.
Qed.

Lemma entry_record_spec (bo : byteorder) (data : bytes) (i : Z) :
  length data = 128%nat ->
  (exists t, type (entry_record bo data i) = VStr t
             /\ is_canonical_guid t = true)
  /\ (exists u, unique (entry_record bo data i) = VStr u
                /\ is_canonical_guid u = true)
  /\ (exists s, name (entry_record bo data i) = VStr s
                /\ (length s <= 36)%nat /\ Forall (fun c => c <> 0%N) s)
  /\ in_uint 8 (first_lba (entry_record bo data i))
  /\ in_uint 8 (last_lba (entry_record bo data i))
  /\ in_uint 8 (flags (entry_record bo data i)).
Proof.
  intros H. cbn [entry_record type unique name first_lba last_lba flags].
  assert (R : forall a b w, (b <= 128)%nat -> (b - a)%nat = w ->
                            in_uint w (uint_le (slice a b data))).
  { intros a b w Hb <-. rewrite <- (slice_length a b data) by lia.
    apply uint_le_range. }
  split; [|split; [|split; [|split; [|split]]]].
  - eexists. split; [reflexivity|]. apply guid_text_canonical.
    rewrite slice_length by lia. reflexivity.
  - eexists. split; [reflexivity|]. apply guid_text_canonical.
    rewrite slice_length by lia. reflexivity.
  - eexists. split; [reflexivity|]. now apply entry_name_spec.
  - apply R; [lia | reflexivity].
  - apply R; [lia | reflexivity].
  - apply R; [lia | reflexivity].
Qed.

Lemma loop_records (bo : byteorder) (h : GPTHeader) (idxs : list Z)
    (event : bytes) :
  Forall (fun p => exists data, length data = 128%nat
                                /\ p = entry_record bo data (index p))
    (fst (read_partitions_loop bo h event idxs)).
Proof.
  revert event. induction idxs as [|i idxs IH]; intros event; [constructor|].
  rewrite loop_cons. destruct (read_entry _ _ _) eqn:E.
  - constructor.
  - constructor.
  - apply IH.
  - cbn [yield fst]. constructor; [|apply IH].
    apply read_entry_yield_inv in E. destruct E as (Hl & _ & ->).
    exists (py_take (part_entry_size h) event). now split.
Qed.

(** X14.  Every record [read_partitions] yields has a type and a unique
    GUID in the canonical text form, a name of at most 36 characters none
    of which is NUL, the three integer fields in the unsigned 64-bit
    range, and an index between 1 and the entry count of the header. *)
Theorem read_partitions_records (bo : byteorder) (event : bytes)
    (header : GPTHeader) (lba_size : option Z) :
  Forall (fun p =>
            (exists t, type p = VStr t /\ is_canonical_guid t = true)
            /\ (exists u, unique p = VStr u /\ is_canonical_guid u = true)
            /\ (exists s, name p = VStr s /\ (length s <= 36)%nat
                          /\ Forall (fun c => c <> 0%N) s)
            /\ in_uint 8 (first_lba p) /\ in_uint 8 (last_lba p)
            /\ in_uint 8 (flags p)
            /\ 1 <= index p <= num_part_entries header)
    (fst (read_partitions bo event header lba_size)).
Proof.
  rewrite read_partitions_unfold.
  set (arr := partition_array event header lba_size).
  pose proof (loop_records bo header
                (py_range 1 (1 + num_part_entries header)) arr) as R.
  pose proof (loop_indices bo header
                (py_range 1 (1 + num_part_entries header)) arr) as I.
  rewrite Forall_forall in R, I. apply Forall_forall. intros p Hp.
  destruct (R p Hp) as (data & Hl & E). specialize (I p Hp).
  apply py_range_In in I.
  destruct (entry_record_spec bo data (index p) Hl)
    as (H1 & H2 & H3 & H4 & H5 & H6).
  rewrite <- E in H1, H2, H3, H4, H5, H6.
  repeat match goal with |- _ /\ _ => split end; try assumption; lia.
Qed.

(** *** Instances *)

Lemma read_partitions_complete_entries_witness :
  read_partitions little sparse_event (header_of sparse_event) (Some 92)
  = (entry_records little 1
       [sample_entry esp_type "root"; unused_entry; unused_entry], Done).
Proof.
  apply (read_partitions_complete_entries little sparse_event
           (header_of sparse_event) (Some 92)
           [sample_entry esp_type "root"; unused_entry; unused_entry] []).
  - reflexivity.
  - repeat constructor.
  - reflexivity.
  - vm_compute. discriminate.
  - reflexivity.
Defined.

Lemma read_partitions_yields_unused_slots_witness :
  exists p,
    nth_error (fst (read_partitions little sparse_event
                      (header_of sparse_event) (Some 92))) 1 = Some p
    /\ type p = VStr nil_guid
    /\ index p = Z.of_nat 1 + 1.
Proof.
  apply (read_partitions_yields_unused_slots little sparse_event
           (header_of sparse_event) (Some 92)
           [sample_entry esp_type "root"; unused_entry; unused_entry] []
           1 unused_entry).
  - reflexivity.
  - repeat constructor.
  - reflexivity.
  - vm_compute. discriminate.
  - reflexivity.
  - reflexivity.
  - reflexivity.
Defined.

Lemma read_partitions_oversize_entry_witness :
  read_partitions little wide_entry_event (header_of wide_entry_event)
    (Some 92)
  = ([], Raised struct_error).
Proof.
  apply (read_partitions_oversize_entry little wide_entry_event
           (header_of wide_entry_event) (Some 92)).
  - vm_compute. discriminate.
  - reflexivity.
  - reflexivity.
Defined.

Lemma read_partitions_nothing_to_read_witness :
  read_partitions little header_only_event (header_of header_only_event) None
  = ([], Done).
Proof.
  apply (read_partitions_nothing_to_read little header_only_event
           (header_of header_only_event) None).
  right; right. vm_compute. discriminate.
Defined.

Lemma read_partitions_count_monotone_witness :
  is_prefix
    (fst (read_partitions little sparse_event
            (with_num_part_entries (header_of sparse_event) 1) (Some 92)))
    (fst (read_partitions little sparse_event
            (with_num_part_entries (header_of sparse_event) 3) (Some 92))).
Proof.
  refine (proj1 (read_partitions_count_monotone little sparse_event
                   (header_of sparse_event) (Some 92) 1 3 _)).
  vm_compute. discriminate.
Defined.

Lemma read_partitions_errors_witness :
  ~ 0 <= part_entry_size (header_of wide_entry_event) <= 128.
Proof.
  destruct (read_partitions_errors little wide_entry_event
              (header_of wide_entry_event) (Some 92) struct_error eq_refl)
    as [H | [H | (_ & H)]]; [discriminate H | discriminate H | exact H].
Defined.

(** ** Names: encoding and decoding *)

Lemma byte_to_of_N (n : N) : Byte.to_N (byte_of_N n) = (n mod 256)%N.
Proof.
  unfold byte_of_N.
  destruct (Byte.of_N (n mod 256)) as [b|] eqn:E.
  - now apply Byte.to_of_N.
  - apply Byte.of_N_None_iff in E.
    pose proof (N.mod_lt n 256 ltac:(lia)). lia.
Qed.

Lemma to_bytes_le_2 (c : N) :
  to_bytes_le 2 c = [byte_of_N c; byte_of_N (c / 256)].
Proof.
  cbn [to_bytes_le]. unfold byte_of_N. now rewrite !N.Div0.mod_mod.
Qed.

Lemma code_unit_little (c : N) :
  (c < 65536)%N -> code_unit little (byte_of_N c) (byte_of_N (c / 256)) = c.
Proof.
  intros H. cbn [code_unit]. rewrite !byte_to_of_N.
  assert (c / 256 < 256)%N by (apply N.Div0.div_lt_upper_bound; lia).
  rewrite (N.mod_small (c / 256)) by assumption.
  rewrite (N.div_mod c 256) at 3 by lia. lia.
Qed.

Lemma code_unit_big (c : N) :
  (c < 65536)%N ->
  code_unit big (byte_of_N c) (byte_of_N (c / 256)) = swap_bytes c.
Proof.
  intros H. cbn [code_unit]. rewrite !byte_to_of_N.
  assert (c / 256 < 256)%N by (apply N.Div0.div_lt_upper_bound; lia).
  rewrite (N.mod_small (c / 256)) by assumption. reflexivity.
Qed.

Lemma code_units_encode (bo : byteorder) (s : str) (rest : bytes) :
  Forall (fun c => (c < 65536)%N) s ->
  code_units bo (encode_utf_16_le s ++ rest)
  = (us <- code_units bo rest ;;
     Ok (match bo with little => s | big => map swap_bytes s end ++ us)).
Proof.
  induction 1 as [|c s Hc Hs IH].
  - cbn. destruct (code_units bo rest), bo; reflexivity.
  - unfold encode_utf_16_le in *. cbn [flat_map].
    rewrite to_bytes_le_2. cbn [app code_units]. rewrite IH.
    destruct (code_units bo rest) as [us|e]; cbn [bind]; [|reflexivity].
    destruct bo; cbn [map app].
    + now rewrite code_unit_little.
    + now rewrite code_unit_big.
Qed.

Lemma code_units_zeros (bo : byteorder) (k : nat) :
  code_units bo (repeat x00 (2 * k)) = Ok (repeat 0%N k).
Proof.
  induction k as [|k IH]; [reflexivity|].
  replace (2 * S k)%nat with (S (S (2 * k))) by lia.
  cbn [repeat code_units]. rewrite IH. cbn [bind].
  destruct bo; reflexivity.
Qed.

Lemma code_points_bmp (s us : list N) :
  Forall (fun c => is_surrogate c = false) s ->
  code_points (s ++ us) = (cs <- code_points us ;; Ok (s ++ cs)).
Proof.
  induction 1 as [|c s Hc Hs IH].
  - cbn. destruct (code_points us); reflexivity.
  - cbn [app code_points].
    assert (E : ((c <? 55296) || (57343 <? c))%N = true).
    { unfold is_surrogate in Hc.
      destruct (N.ltb_spec c 55296), (N.ltb_spec 57343 c); try reflexivity.
      exfalso. apply andb_false_iff in Hc. destruct Hc as [Hc | Hc].
      - apply N.leb_gt in Hc. lia.
      - apply N.leb_gt in Hc. lia. }
    rewrite E, IH. destruct (code_points us); reflexivity.
Qed.

Lemma code_points_zeros (k : nat) :
  code_points (repeat 0%N k) = Ok (repeat 0%N k).
Proof.
  induction k as [|k IH]; [reflexivity|].
  cbn [repeat code_points]. cbn [N.ltb N.compare orb]. now rewrite IH.
Qed.

Lemma code_points_low_surrogate (u : N) (rest : list N) :
  is_low_surrogate u = true ->
  code_points (u :: rest) = Raise UnicodeDecodeError.
Proof.
  unfold is_low_surrogate. intros H. apply andb_true_iff in H.
  destruct H as (H1 & H2). apply N.leb_le in H1, H2.
  cbn [code_points].
  destruct (N.ltb_spec u 55296); [lia|].
  destruct (N.ltb_spec 57343 u); [lia|]. cbn [orb].
  destruct (N.ltb_spec u 56320); [lia | reflexivity].
Qed.

Lemma before_nul_zeros (s : str) (k : nat) :
  Forall (fun c => c <> 0%N) s -> before_nul (s ++ repeat 0%N k) = s.
Proof.
  induction 1 as [|c s Hc Hs IH].
  - destruct k; reflexivity.
  - cbn [app before_nul]. destruct (N.eqb_spec c 0); [contradiction|].
    now rewrite IH.
Qed.

Lemma is_bmp_char_spec (c : N) :
  is_bmp_char c = true -> (c < 65536)%N /\ is_surrogate c = false.
Proof.
  unfold is_bmp_char. intros H. apply andb_true_iff in H.
  destruct H as (H1 & H2). apply N.ltb_lt in H1.
  apply negb_true_iff in H2. auto.
Qed.

(** Without a byte-order mark in front, the host's byte order is used. *)
Lemma decode_utf_16_encode (bo : byteorder) (s : str) (rest : bytes) :
  Forall (fun c => (c < 65536)%N) s ->
  starts_with_bom s = false ->
  (s = [] -> forall b', rest <> xff :: xfe :: b' /\ rest <> xfe :: xff :: b') ->
  decode_utf_16 bo (encode_utf_16_le s ++ rest)
  = (us <- code_units bo (encode_utf_16_le s ++ rest) ;; code_points us).
Proof.
  intros Hs Hb Hrest.
  destruct (decode_utf_16_cases bo (encode_utf_16_le s ++ rest))
    as [(b' & E & _) | [(b' & E & _) | E]]; [exfalso .. | exact E].
  - destruct s as [|c s].
    + cbn in E. exact (proj1 (Hrest eq_refl b') E).
    + unfold encode_utf_16_le in E. cbn [flat_map] in E.
      rewrite to_bytes_le_2 in E. cbn [app] in E.
      injection E as E1 E2 _.
      apply (f_equal Byte.to_N) in E1, E2. rewrite byte_to_of_N in E1, E2.
      cbn in E1, E2. inversion Hs as [|? ? Hc _]; subst.
      assert (c / 256 < 256)%N by (apply N.Div0.div_lt_upper_bound; lia).
      rewrite N.mod_small in E2 by assumption.
      pose proof (N.div_mod c 256 ltac:(lia)) as D.
      assert (c = 65279%N) by lia. subst c. discriminate Hb.
  - destruct s as [|c s].
    + cbn in E. exact (proj2 (Hrest eq_refl b') E).
    + unfold encode_utf_16_le in E. cbn [flat_map] in E.
      rewrite to_bytes_le_2 in E. cbn [app] in E.
      injection E as E1 E2 _.
      apply (f_equal Byte.to_N) in E1, E2. rewrite byte_to_of_N in E1, E2.
      cbn in E1, E2. inversion Hs as [|? ? Hc _]; subst.
      assert (c / 256 < 256)%N by (apply N.Div0.div_lt_upper_bound; lia).
      rewrite N.mod_small in E2 by assumption.
      pose proof (N.div_mod c 256 ltac:(lia)) as D.
      assert (c = 65534%N) by lia. subst c. discriminate Hb.
Qed.

Lemma zeros_no_bom (k : nat) (b' : bytes) :
  repeat x00 k <> xff :: xfe :: b' /\ repeat x00 k <> xfe :: xff :: b'.
Proof. destruct k; split; discriminate. Qed.

(** A name field that holds encoded text and NUL padding, decoded in
    either byte order. *)
Lemma decode_name_encode (bo : byteorder) (s : str) (pad : nat) :
  Forall (fun c => (c < 65536)%N) s ->
  starts_with_bom s = false ->
  Forall (fun c => is_surrogate c = false /\ c <> 0%N)
    (match bo with little => s | big => map swap_bytes s end) ->
  decode_name bo (VBytes (encode_utf_16_le s ++ repeat x00 (2 * pad)))
  = Ok (VStr (match bo with little => s | big => map swap_bytes s end)).
Proof.
  intros H1 Hb Hu.
  set (us := match bo with little => s | big => map swap_bytes s end) in *.
  assert (H2 : Forall (fun c => is_surrogate c = false) us).
  { eapply Forall_impl; [|exact Hu]. cbv beta. now intros c (H & _). }
  assert (H3 : Forall (fun c => c <> 0%N) us).
  { eapply Forall_impl; [|exact Hu]. cbv beta. now intros c (_ & H). }
  cbn [decode_name].
  rewrite decode_utf_16_encode
    by (try assumption; intros _; apply zeros_no_bom).
  rewrite code_units_encode, code_units_zeros by assumption. cbn [bind].
  fold us. rewrite code_points_bmp by assumption.
  rewrite code_points_zeros. cbn [bind]. now rewrite before_nul_zeros.
Qed.

(** X15.  On a little-endian host a name round-trips: text of Basic
    Multilingual Plane characters without NUL that does not start with
    U+FEFF or U+FFFE, encoded as UTF-16LE and padded with NUL characters,
    decodes to the same text. *)
Theorem name_round_trip (s : str) (pad : nat) :
  Forall (fun c => is_bmp_char c = true /\ c <> 0%N) s ->
  starts_with_bom s = false ->
  decode_name little (VBytes (encode_utf_16_le s ++ repeat x00 (2 * pad)))
  = Ok (VStr s).
Proof.
  intros Hs Hb. apply (decode_name_encode little s pad).
  - eapply Forall_impl; [|exact Hs]. cbv beta.
    intros c (H & _). now apply is_bmp_char_spec.
  - assumption.
  - eapply Forall_impl; [|exact Hs]. cbv beta.
    intros c (H & Hz). split; [now apply is_bmp_char_spec | assumption].
Qed.

Lemma name_round_trip_witness :
  decode_name little
    (VBytes (encode_utf_16_le (s_lit "EFI System") ++ repeat x00 (2 * 26)))
  = Ok (VStr (s_lit "EFI System")).
Proof.
  apply (name_round_trip (s_lit "EFI System") 26).
  - repeat constructor; discriminate.
  - reflexivity.
Defined.

(** X16.  The name is decoded with the host's byte order: on a
    big-endian host the UTF-16LE bytes of an ASCII name decode to other
    text, every character multiplied by 256, so a name that is not empty
    reads differently on the two kinds of host. *)
Theorem name_big_endian_host (s : str) (pad : nat) :
  Forall (fun c => (0 < c < 128)%N) s ->
  decode_name big (VBytes (encode_utf_16_le s ++ repeat x00 (2 * pad)))
  = Ok (VStr (map (fun c => (256 * c)%N) s))
  /\ (s <> [] ->
      decode_name big (VBytes (encode_utf_16_le s ++ repeat x00 (2 * pad)))
      <> decode_name little
           (VBytes (encode_utf_16_le s ++ repeat x00 (2 * pad)))).
Proof.
  intros Hs.
  assert (H1 : Forall (fun c => (c < 65536)%N) s).
  { eapply Forall_impl; [|exact Hs]. cbv beta. intros c H. lia. }
  assert (Hb : starts_with_bom s = false).
  { destruct s as [|c s]; [reflexivity|]. inversion Hs as [|? ? Hc _]; subst.
    cbn [starts_with_bom]. unfold is_bom.
    destruct (N.eqb_spec c 65279); [lia|].
    destruct (N.eqb_spec c 65534); [lia | reflexivity]. }
  assert (Hm : map swap_bytes s = map (fun c => (256 * c)%N) s).
  { apply map_ext_in. intros c Hc. rewrite Forall_forall in Hs.
    specialize (Hs c Hc). unfold swap_bytes.
    rewrite N.mod_small, N.div_small by lia. lia. }
  assert (NS : forall c, (c < 55296)%N -> is_surrogate c = false).
  { intros c Hc. unfold is_surrogate.
    destruct (N.leb_spec 55296 c); [lia | reflexivity]. }
  assert (E1 : decode_name big
                 (VBytes (encode_utf_16_le s ++ repeat x00 (2 * pad)))
               = Ok (VStr (map (fun c => (256 * c)%N) s))).
  { rewrite <- Hm. apply (decode_name_encode big s pad); try assumption.
    rewrite Hm. apply Forall_map. eapply Forall_impl; [|exact Hs].
    cbv beta. intros c Hc. split; [apply NS; lia | lia]. }
  assert (E2 : decode_name little
                 (VBytes (encode_utf_16_le s ++ repeat x00 (2 * pad)))
               = Ok (VStr s)).
  { apply (decode_name_encode little s pad); try assumption.
    eapply Forall_impl; [|exact Hs].
    cbv beta. intros c Hc. split; [apply NS; lia | lia]. }
  split; [exact E1|]. intros Hne. rewrite E1, E2.
  destruct s as [|c s]; [contradiction|]. inversion Hs as [|? ? Hc _]; subst.
  cbn [map]. intros E. assert (X : (256 * c)%N = c) by congruence. lia.
Qed.

Lemma name_big_endian_host_witness :
  decode_name big
    (VBytes (encode_utf_16_le (s_lit "EFI") ++ repeat x00 (2 * 33)))
  = Ok (VStr [17664; 17920; 18688]%N).
Proof.
  refine (proj1 (name_big_endian_host (s_lit "EFI") 33 _)).
  repeat constructor.
Defined.

(** X17.  A name that starts with U+FEFF loses that character: its two
    bytes FF FE are read as a byte-order mark, and what follows is decoded
    little-endian on every host. *)
Theorem name_byte_order_mark (bo : byteorder) (s : str) (pad : nat) :
  Forall (fun c => is_bmp_char c = true /\ c <> 0%N) s ->
  decode_name bo
    (VBytes (encode_utf_16_le (65279%N :: s) ++ repeat x00 (2 * pad)))
  = Ok (VStr s).
Proof.
  intros Hs.
  assert (H1 : Forall (fun c => (c < 65536)%N) s).
  { eapply Forall_impl; [|exact Hs]. cbv beta.
    intros c (H & _). now apply is_bmp_char_spec. }
  assert (H2 : Forall (fun c => is_surrogate c = false) s).
  { eapply Forall_impl; [|exact Hs]. cbv beta.
    intros c (H & _). now apply is_bmp_char_spec. }
  assert (H3 : Forall (fun c => c <> 0%N) s).
  { eapply Forall_impl; [|exact Hs]. cbv beta. now intros c (_ & H). }
  change (encode_utf_16_le (65279%N :: s))
    with (xff :: xfe :: encode_utf_16_le s).
  cbn [decode_name app decode_utf_16].
  rewrite code_units_encode, code_units_zeros by assumption. cbn [bind].
  rewrite code_points_bmp by assumption.
  rewrite code_points_zeros. cbn [bind]. now rewrite before_nul_zeros.
Qed.

Lemma name_byte_order_mark_witness :
  decode_name big
    (VBytes (encode_utf_16_le (65279%N :: s_lit "EFI") ++ repeat x00 (2 * 32)))
  = Ok (VStr (s_lit "EFI")).
Proof.
  apply (name_byte_order_mark big (s_lit "EFI") 32).
  repeat constructor; discriminate.
Defined.

(** X18.  The whole name field is decoded before it is cut at the first
    NUL: on a little-endian host, when the header counts at least one
    entry of 128 bytes and the name field of the first entry does not
    start with a byte-order mark (U+FEFF or U+FFFE as its first code
    unit), a low surrogate that is the first surrogate in the field, also
    one behind a NUL, makes [read_partitions] raise [UnicodeDecodeError]
    without yielding anything. *)
Theorem read_partitions_unpaired_surrogate (event : bytes)
    (header : GPTHeader) (lba_size : option Z) (e rest : bytes)
    (pre post : str) (u : N) :
  part_entry_size header = 128 ->
  1 <= num_part_entries header ->
  partition_array event header lba_size = e ++ rest ->
  length e = 128%nat ->
  slice 56 128 e = encode_utf_16_le (pre ++ u :: post) ->
  Forall (fun c => is_bmp_char c = true) pre ->
  starts_with_bom (pre ++ [u]) = false ->
  is_low_surrogate u = true ->
  Forall (fun c => (c < 65536)%N) post ->
  read_partitions little event header lba_size
  = ([], Raised UnicodeDecodeError).
Proof.
  intros Hs Hn Harr Hl Hname Hpre Hb Hu Hpost.
  rewrite read_partitions_unfold, Harr.
  rewrite py_range_cons by lia. rewrite loop_cons, Hs.
  replace 128 with (len e) by (unfold len; lia).
  rewrite py_take_app_exact. rewrite read_entry_128 by assumption.
  assert (Hu' : (u < 65536)%N).
  { unfold is_low_surrogate in Hu. apply andb_true_iff in Hu.
    destruct Hu as (_ & Hu). apply N.leb_le in Hu. lia. }
  assert (H1 : Forall (fun c => (c < 65536)%N) (pre ++ u :: post)).
  { apply Forall_app. split.
    - eapply Forall_impl; [|exact Hpre]. cbv beta.
      intros c H. now apply is_bmp_char_spec.
    - constructor; assumption. }
  assert (H2 : Forall (fun c => is_surrogate c = false) pre).
  { eapply Forall_impl; [|exact Hpre]. cbv beta.
    intros c H. now apply is_bmp_char_spec. }
  assert (Hb' : starts_with_bom (pre ++ u :: post) = false)
    by (destruct pre; exact Hb).
  assert (D : name_decodes little e = false).
  { unfold name_decodes. rewrite Hname.
    rewrite <- (app_nil_r (encode_utf_16_le (pre ++ u :: post))).
    rewrite decode_utf_16_encode;
      [|assumption|assumption|destruct pre; discriminate].
    rewrite code_units_encode by assumption. cbn [code_units bind].
    rewrite app_nil_r, code_points_bmp by assumption.
    now rewrite code_points_low_surrogate. }
  rewrite D. reflexivity.
Qed.

Lemma read_partitions_unpaired_surrogate_witness :
  read_partitions little stray_surrogate_event
    (header_of stray_surrogate_event) (Some 92)
  = ([], Raised UnicodeDecodeError).
Proof.
  apply (read_partitions_unpaired_surrogate stray_surrogate_event
           (header_of stray_surrogate_event) (Some 92)
           stray_surrogate_entry [] [65; 0]%N (repeat 0%N 33) 56320%N).
  - reflexivity.
  - vm_compute. discriminate.
  - reflexivity.
  - reflexivity.
  - reflexivity.
  - repeat constructor.
  - reflexivity.
  - reflexivity.
  - repeat constructor.
Defined.

(** ** [main]: the argument, the output, the status *)

Lemma fromhex_skip (sep s : str) :
  Forall (fun c => is_space c = true) sep ->
  bytes_fromhex (sep ++ s) = bytes_fromhex s.
Proof.
  induction 1 as [|c sep Hc Hsep IH]; [reflexivity|].
  cbn [app bytes_fromhex]. now rewrite Hc.
Qed.

Lemma hex_digit_upper_spec (d : N) :
  (d < 16)%N -> hex_value (N_of_ascii (hex_digit_upper d)) = Some d.
Proof.
  intros H. destruct d as [|p]; [reflexivity|].
  repeat (destruct p as [p|p|]; try lia; try reflexivity).
Qed.

Lemma hex_value_not_space (c d : N) :
  hex_value c = Some d -> is_space c = false.
Proof.
  unfold hex_value, is_space. intros H.
  destruct (N.eqb_spec c 32) as [-> | _]; [discriminate|].
  destruct (N.leb_spec 9 c), (N.leb_spec c 13); try reflexivity.
  exfalso.
  destruct (N.leb_spec 48 c); [lia|]. cbn [andb] in H.
  destruct (N.leb_spec 97 c); [lia|]. cbn [andb] in H.
  destruct (N.leb_spec 65 c); [lia|]. discriminate.
Qed.

Lemma fromhex_byte (c d : N) (hi lo : N) (s : str) :
  hex_value c = Some hi -> hex_value d = Some lo ->
  bytes_fromhex (c :: d :: s)
  = (b <- bytes_fromhex s ;; Ok (byte_of_N (hi * 16 + lo) :: b)).
Proof.
  intros Hc Hd. cbn [bytes_fromhex].
  now rewrite (hex_value_not_space c hi Hc), Hc, Hd.
Qed.

(** [bytes.fromhex] reads a dump back, in either case and with
    whitespace around the bytes. *)
Lemma fromhex_hex_dump (upper : bool) (sep : str) (b : bytes) :
  Forall (fun c => is_space c = true) sep ->
  bytes_fromhex (hex_dump upper sep b) = Ok b.
Proof.
  intros Hsep. unfold hex_dump. rewrite fromhex_skip by assumption.
  induction b as [|x b IH]; [reflexivity|].
  cbn [flat_map]. cbv zeta. cbn [app].
  destruct (byte_digits x) as (Hhi & Hlo).
  assert (D : forall d, (d < 16)%N ->
            hex_value (N_of_ascii ((if upper then hex_digit_upper
                                    else hex_digit) d)) = Some d).
  { intros d Hd. destruct upper;
      [now apply hex_digit_upper_spec | now apply hex_digit_spec]. }
  rewrite (fromhex_byte _ _ _ _ _ (D _ Hhi) (D _ Hlo)).
  rewrite fromhex_skip by assumption. rewrite IH. cbn [bind].
  f_equal. f_equal.
  rewrite <- (byte_of_to_N x) at 3. f_equal.
  rewrite (N.div_mod (Byte.to_N x) 16) at 3 by lia. lia.
Qed.

(** What [bytes.fromhex] accepts, and the only exception it raises. *)
Lemma fromhex_spec (s : str) :
  match bytes_fromhex s with
  | Ok b =>
      Forall (fun c => is_space c = true \/ is_hex_digit c = true) s
      /\ length (filter (fun c => negb (is_space c)) s) = (2 * length b)%nat
  | Raise e => e = ValueError
  end.
Proof.
  remember (length s) as n eqn:Hn. revert s Hn.
  induction n as [n IH] using lt_wf_ind. intros s Hn.
  destruct s as [|c s']; [cbn; split; [constructor | reflexivity]|].
  cbn [bytes_fromhex filter]. destruct (is_space c) eqn:Hc.
  - specialize (IH (length s') ltac:(cbn in Hn; lia) s' eq_refl).
    destruct (bytes_fromhex s'); [|assumption].
    destruct IH as (IH1 & IH2). cbn [negb]. split; [|assumption].
    constructor; [now left | assumption].
  - cbn [negb]. destruct (hex_value c) as [top|] eqn:Ht; [|reflexivity].
    destruct s' as [|d s'']; [reflexivity|].
    destruct (hex_value d) as [bot|] eqn:Hb; [|reflexivity].
    specialize (IH (length s'') ltac:(cbn in Hn; lia) s'' eq_refl).
    destruct (bytes_fromhex s''); cbn [bind]; [|assumption].
    destruct IH as (IH1 & IH2). cbn [filter].
    rewrite (hex_value_not_space d bot Hb). cbn [negb length]. split; [|lia].
    constructor; [right; unfold is_hex_digit; now rewrite Ht|].
    constructor; [right; unfold is_hex_digit; now rewrite Hb | assumption].
Qed.

Lemma read_header_firstn (event : bytes) :
  read_header event = read_header (firstn 92 event).
Proof.
  unfold read_header. rewrite !header_prefix. now rewrite firstn_firstn.
Qed.

(** X19.  When [av] does not hold exactly two strings (the program name
    and the event), [main] writes the usage line to [sys.stderr], nothing
    else, and returns [EX_USAGE]; when it does, [main] writes nothing to
    [sys.stderr] and the only status it returns is [EX_OK]. *)
Theorem main_usage (bo : byteorder) (av : list str) :
  (length av <> 2%nat ->
   main bo av = ([print_stderr "Usage: parse_gpt GPT_EVENT"], Ok EX_USAGE))
  /\ (length av = 2%nat ->
      (forall line, ~ In (print_stderr line) (fst (main bo av)))
      /\ forall status, snd (main bo av) = Ok status -> status = EX_OK).
Proof.
  unfold main, len. split; intros H.
  - destruct (Z.eqb_spec (Z.of_nat (length av)) 2); [lia | reflexivity].
  - rewrite H. cbn [Z.of_nat Z.eqb Pos.of_succ_nat Pos.succ Pos.eqb negb].
    destruct (bytes_fromhex (nth 1 av [])) as [event|e];
      [|split; [intros line [] | discriminate]].
    destruct (read_header event) as [header|e];
      [|split; [intros line [] | discriminate]].
    cbn [fst snd]. split.
    + intros line [Hl | Hl]; [discriminate|].
      apply in_map_iff in Hl. destruct Hl as (p & Hp & _). discriminate.
    + intros status.
      destruct (snd (read_partitions bo event header None));
        [congruence | discriminate].
Qed.

Lemma main_usage_witness :
  main little [s_lit "parse_gpt"]
  = ([print_stderr "Usage: parse_gpt GPT_EVENT"], Ok EX_USAGE).
Proof.
  apply (proj1 (main_usage little [s_lit "parse_gpt"])). discriminate.
Defined.

(** X20.  Given a dump of an event in hexadecimal, in lower or upper
    case and with any whitespace around the bytes, [main] raises what
    [read_header] raises on the event, having written nothing; otherwise
    it writes the header, then every record [read_partitions] yields with
    [lba_size] 50, also the records that come before an exception, and
    returns [EX_OK] when the generator returns. *)
Theorem main_decodes_event (bo : byteorder) (prog : str) (upper : bool)
    (sep : str) (event : bytes) :
  Forall (fun c => is_space c = true) sep ->
  main bo [prog; hex_dump upper sep event]
  = match read_header event with
    | Raise e => ([], Raise e)
    | Ok header =>
        (debug_header header
         :: map debug_part
              (fst (read_partitions bo event header (Some 50))),
         match snd (read_partitions bo event header (Some 50)) with
         | Done => Ok EX_OK
         | Raised e => Raise e
         end)
    end.
Proof.
  intros Hsep. unfold main. cbn [len length Z.of_nat Pos.of_succ_nat Pos.succ
    Z.eqb Pos.eqb negb nth].
  rewrite fromhex_hex_dump by assumption. reflexivity.
Qed.

Lemma main_decodes_event_witness :
  main little [s_lit "parse_gpt"; hex_dump true [32%N] tpm_event]
  = ([debug_header (header_of tpm_event);
      debug_part (entry_record little (skipn 100 tpm_event) 1)], Ok EX_OK).
Proof.
  rewrite (main_decodes_event little (s_lit "parse_gpt") true [32%N]
             tpm_event); [reflexivity|].
  repeat constructor.
Defined.

(** X21.  An argument that holds a character other than whitespace and
    hexadecimal digits, or an odd number of digits, makes [main] raise
    [ValueError] before it reads a header or writes anything. *)
Theorem main_bad_argument (bo : byteorder) (prog arg : str) :
  (exists c, In c arg /\ is_space c = false /\ is_hex_digit c = false)
  \/ Nat.odd (length (filter (fun c => negb (is_space c)) arg)) = true ->
  main bo [prog; arg] = ([], Raise ValueError).
Proof.
  intros H. unfold main. cbn [len length Z.of_nat Pos.of_succ_nat Pos.succ
    Z.eqb Pos.eqb negb nth].
  pose proof (fromhex_spec arg) as S.
  destruct (bytes_fromhex arg) as [b|e]; [exfalso | now rewrite S].
  destruct S as (S1 & S2). destruct H as [(c & Hin & Hs & Hh) | H].
  - rewrite Forall_forall in S1. destruct (S1 c Hin); congruence.
  - rewrite S2 in H. rewrite Nat.odd_mul in H. discriminate.
Qed.

Lemma main_bad_argument_witness :
  main little [s_lit "parse_gpt"; s_lit "0x4546"] = ([], Raise ValueError).
Proof.
  apply (main_bad_argument little (s_lit "parse_gpt") (s_lit "0x4546")).
  left. exists 120%N. split; [|split; reflexivity].
  right; left. reflexivity.
Defined.

(** X22.  For an event laid out as a header, a gap that ends at
    [part_entry_start_lba * 50], and complete 128-byte entries whose names
    decode, no more of them than the header counts, [main] given the
    event in hexadecimal writes the header and one record per entry, in
    order and numbered from 1, and returns [EX_OK]. *)
Theorem main_event_layout (bo : byteorder) (prog : str) (hdr gap : bytes)
    (entries : list bytes) (header : GPTHeader) :
  read_header hdr = Ok header ->
  length hdr = 92%nat ->
  len (hdr ++ gap) = part_entry_start_lba header * 50 ->
  part_entry_size header = 128 ->
  len entries <= num_part_entries header ->
  Forall (fun e => length e = 128%nat /\ name_decodes bo e = true) entries ->
  main bo [prog; hex_dump false [] (hdr ++ gap ++ concat entries)]
  = (debug_header header :: map debug_part (entry_records bo 1 entries),
     Ok EX_OK).
Proof.
  intros Hh Hl Hoff Hs Hn HF. unfold main.
  cbn [len length Z.of_nat Pos.of_succ_nat Pos.succ Z.eqb Pos.eqb negb nth].
  rewrite fromhex_hex_dump by constructor.
  rewrite read_header_firstn, firstn_app, Hl, Nat.sub_diag.
  rewrite <- Hl, firstn_all. cbn [firstn]. rewrite app_nil_r, Hh.
  rewrite read_partitions_unfold. unfold partition_array.
  cbn [lba_size_or_default]. rewrite <- Hoff.
  rewrite app_assoc, py_drop_app_exact.
  rewrite <- (app_nil_r (concat entries)).
  rewrite loop_complete_entries by auto. reflexivity.
Qed.

Lemma main_event_layout_witness :
  main little [s_lit "parse_gpt"; hex_dump false [] tpm_event]
  = ([debug_header (header_of tpm_event);
      debug_part (entry_record little (skipn 100 tpm_event) 1)], Ok EX_OK).
Proof.
  apply (main_event_layout little (s_lit "parse_gpt")
           (firstn 92 tpm_event) (to_bytes_le 8 1)
           [skipn 100 tpm_event] (header_of tpm_event)).
  - reflexivity.
  - reflexivity.
  - reflexivity.
  - reflexivity.
  - vm_compute. discriminate.
  - repeat constructor.
Defined.

(** ** [read_partitions]: the bytes it looks at *)

Lemma py_take_app_le {A} (n : Z) (l1 l2 : list A) :
  0 <= n <= len l1 -> py_take n (l1 ++ l2) = py_take n l1.
Proof.
  intros H. unfold len in H. rewrite !py_take_nonneg by lia.
  rewrite firstn_app.
  replace (Z.to_nat n - length l1)%nat with 0%nat by lia.
  cbn [firstn]. apply app_nil_r.
Qed.

Lemma py_drop_app_le {A} (n : Z) (l1 l2 : list A) :
  0 <= n <= len l1 -> py_drop n (l1 ++ l2) = py_drop n l1 ++ l2.
Proof.
  intros H. unfold len in H. rewrite !py_drop_nonneg by lia.
  rewrite skipn_app.
  replace (Z.to_nat n - length l1)%nat with 0%nat by lia. reflexivity.
Qed.

Lemma loop_ignores_trailing (bo : byteorder) (h : GPTHeader) (junk : bytes)
    (idxs : list Z) (arr : bytes) :
  0 <= part_entry_size h ->
  len idxs * part_entry_size h <= len arr ->
  read_partitions_loop bo h (arr ++ junk) idxs
  = read_partitions_loop bo h arr idxs.
Proof.
  intros Hs. revert arr. induction idxs as [|i idxs IH]; intros arr Hl;
    [reflexivity|].
  assert (Hlen : len (i :: idxs) = 1 + len idxs)
    by (unfold len; cbn [length]; lia).
  assert (Hpos : 0 <= len idxs) by (unfold len; lia).
  assert (Hle : part_entry_size h <= len arr) by nia.
  rewrite !loop_cons.
  rewrite py_take_app_le, py_drop_app_le by lia.
  assert (Hrest : len idxs * part_entry_size h
                  <= len (py_drop (part_entry_size h) arr)).
  { rewrite py_drop_nonneg by lia. unfold len in *. rewrite length_skipn.
    nia. }
  rewrite (IH _ Hrest). reflexivity.
Qed.

(** X23.  When the buffer holds all the entries the header counts, what
    follows them is not looked at: [read_partitions] gives the same
    records and ends the same way with any bytes appended to the
    buffer. *)
Theorem read_partitions_ignores_trailing (bo : byteorder)
    (event junk : bytes) (header : GPTHeader) (lba_size : option Z) :
  0 <= part_entry_start_lba header * lba_size_or_default lba_size ->
  0 <= part_entry_size header ->
  0 <= num_part_entries header ->
  part_entry_start_lba header * lba_size_or_default lba_size
  + num_part_entries header * part_entry_size header <= len event ->
  read_partitions bo (event ++ junk) header lba_size
  = read_partitions bo event header lba_size.
Proof.
  intros Ho Hs Hn Hl. rewrite !read_partitions_unfold.
  unfold partition_array.
  assert (0 <= num_part_entries header * part_entry_size header) by nia.
  rewrite py_drop_app_le by lia.
  apply loop_ignores_trailing; [assumption|].
  unfold len at 1. rewrite py_range_length.
  replace (1 + num_part_entries header - 1) with (num_part_entries header)
    by lia.
  rewrite Z2Nat.id by assumption.
  rewrite py_drop_nonneg by assumption. unfold len in *.
  rewrite length_skipn. lia.
Qed.

Lemma read_partitions_ignores_trailing_witness :
  read_partitions little (tpm_event ++ [xff; xff; xff])
    (header_of tpm_event) None
  = read_partitions little tpm_event (header_of tpm_event) None.
Proof.
  apply (read_partitions_ignores_trailing little tpm_event [xff; xff; xff]
           (header_of tpm_event) None); vm_compute; discriminate.
Defined.

(** X24.  When the header counts at least one entry and gives an entry
    size between 1 and 127, over an array that is not empty the first
    slice is too short for the entry layout and [read_partitions] raises
    [GPTError("Short partition entry")] at once, yielding nothing. *)
Theorem read_partitions_small_entry_size (bo : byteorder) (event : bytes)
    (header : GPTHeader) (lba_size : option Z) :
  0 < part_entry_size header < 128 ->
  1 <= num_part_entries header ->
  partition_array event header lba_size <> [] ->
  read_partitions bo event header lba_size
  = ([], Raised (GPTError "Short partition entry")).
Proof.
  intros Hs Hn Harr. rewrite read_partitions_unfold.
  rewrite py_range_cons by lia. rewrite loop_cons.
  rewrite read_entry_short; [reflexivity | |].
  - rewrite py_take_nonneg by lia.
    destruct (partition_array event header lba_size) as [|x arr];
      [contradiction|].
    destruct (Z.to_nat (part_entry_size header)) eqn:E; [lia | discriminate].
  - pose proof (py_take_length_le (part_entry_size header)
                  (partition_array event header lba_size) ltac:(lia)).
    unfold len. lia.
Qed.

Lemma read_partitions_small_entry_size_witness :
  read_partitions little
    (sample_header_bytes 1 2 64 ++ sample_entry esp_type "root")
    (header_of (sample_header_bytes 1 2 64 ++ sample_entry esp_type "root"))
    (Some 92)
  = ([], Raised (GPTError "Short partition entry")).
Proof.
  apply (read_partitions_small_entry_size little
           (sample_header_bytes 1 2 64 ++ sample_entry esp_type "root")
           (header_of (sample_header_bytes 1 2 64
                       ++ sample_entry esp_type "root"))
           (Some 92)).
  - vm_compute. split; reflexivity.
  - vm_compute. discriminate.
  - discriminate.
Defined.
